(** * ComfyManage: workflow scanner, resource resolver, URL validation,
      installer-script synthesis and download history.

    A shallow embedding of
      - services/comfyParser.ts   ([parseWorkflowData], [isCoreNode]),
      - services/geminiService.ts ([analyzeResourcesWithGemini]),
      - components/ScriptPreview.tsx ([isDirectDownloadUrl],
        [getRepoFolderName], [generateScript]),
      - App.tsx ([addToHistory], [clearHistory], [handleFileLoaded]),
      - components/ResourceManager.tsx ([handleDrop]),
    followed by the properties of these functions.

    Conventions.  A JavaScript string is a [string]; one [ascii] stands for
    one code unit in the range U+0000..U+00FF, so [toLowerCase] and [trim]
    are the restrictions of the JavaScript operations to that range.  A
    thrown exception is the [inl] of a sum.  [crypto.randomUUID] is a supply
    [randomUUID : nat -> string] read through a counter, [JSON.parse] and
    [new URL] are platform functions taken as section variables. *)

From Stdlib Require Import List String Ascii Bool Arith ZArith Lia QArith Permutation.
From Stdlib Require Import Numbers.DecimalString.
Import ListNotations.
Local Close Scope Q_scope.
Local Open Scope nat_scope.
Local Open Scope list_scope.
Local Open Scope string_scope.

(* ===================================================================== *)
(** ** JavaScript string operations *)
(* ===================================================================== *)

Module JsString.

(** [!s] for a string: only the empty string is falsy. *)
Definition truthy (s : string) : bool :=
  match s with EmptyString => false | String _ _ => true end.

(** [s.startsWith(p)] *)
Definition startsWith (s p : string) : bool := String.prefix p s.

(** [s.endsWith(p)] *)
Definition endsWith (s p : string) : bool :=
  let n := String.length s in
  let m := String.length p in
  if (m <=? n)%nat then String.eqb (String.substring (n - m) m s) p else false.

(** [s.includes(p)] *)
Fixpoint includes (s p : string) : bool :=
  String.prefix p s ||
  match s with
  | EmptyString => false
  | String _ s' => includes s' p
  end.

(** Lower-casing of one code unit below U+0100: A-Z, and the letters
    U+00C0..U+00DE except the multiplication sign U+00D7. *)
Definition lowerChar (c : ascii) : ascii :=
  let n := nat_of_ascii c in
  if (((65 <=? n) && (n <=? 90)) ||
      ((192 <=? n) && (n <=? 222) && negb (n =? 215)))%nat
  then ascii_of_nat (n + 32) else c.

(** [s.toLowerCase()] on code units below U+0100.  There the result has
    the length of [s]; the lower-casing of all of Unicode has not (U+0130
    becomes two code units). *)
Fixpoint toLowerCase (s : string) : string :=
  match s with
  | EmptyString => EmptyString
  | String c s' => String (lowerChar c) (toLowerCase s')
  end.

(** White space and line terminators of ECMAScript below U+0100:
    TAB, LF, VT, FF, CR, SP, NBSP. *)
Definition isWhite (c : ascii) : bool :=
  let n := nat_of_ascii c in
  (((9 <=? n) && (n <=? 13)) || (n =? 32) || (n =? 160))%nat.

Fixpoint trimStartL (l : list ascii) : list ascii :=
  match l with
  | [] => []
  | c :: l' => if isWhite c then trimStartL l' else l
  end.

(** [s.trim()] *)
Definition trim (s : string) : string :=
  string_of_list_ascii
    (rev (trimStartL (rev (trimStartL (list_ascii_of_string s))))).

(** [s.split(sep)] for a one-character separator: the pieces between
    the separators, at least one piece. *)
Fixpoint splitAux (sep : ascii) (s cur : string) : list string :=
  match s with
  | EmptyString => [cur]
  | String c s' =>
      if Ascii.eqb c sep then cur :: splitAux sep s' EmptyString
      else splitAux sep s' (cur ++ String c EmptyString)
  end.

Definition split (sep : ascii) (s : string) : list string :=
  splitAux sep s EmptyString.

(** [s.replace(/c/g, d)] for single characters [c] and [d]. *)
Fixpoint replaceAll (c d : ascii) (s : string) : string :=
  match s with
  | EmptyString => EmptyString
  | String x s' => String (if Ascii.eqb x c then d else x) (replaceAll c d s')
  end.

(** [s.slice(0, -k)] *)
Definition dropEnd (k : nat) (s : string) : string :=
  String.substring 0 (String.length s - k) s.

(** [Array.prototype.includes] / [Set.prototype.has] on strings. *)
Definition mem (x : string) (l : list string) : bool :=
  existsb (String.eqb x) l.

End JsString.

(* ===================================================================== *)
(** ** types.ts *)
(* ===================================================================== *)

Inductive ResourceType :=
| CHECKPOINT | LORA | VAE | EMBEDDING | CONTROLNET | UPSCALER
| CUSTOM_NODE | UNKNOWN.

Definition ResourceType_eqb (a b : ResourceType) : bool :=
  match a, b with
  | CHECKPOINT, CHECKPOINT | LORA, LORA | VAE, VAE | EMBEDDING, EMBEDDING
  | CONTROLNET, CONTROLNET | UPSCALER, UPSCALER | CUSTOM_NODE, CUSTOM_NODE
  | UNKNOWN, UNKNOWN => true
  | _, _ => false
  end.

(** The string value of each enum member, as a template literal prints it. *)
Definition ResourceType_str (t : ResourceType) : string :=
  match t with
  | CHECKPOINT => "CHECKPOINT" | LORA => "LORA" | VAE => "VAE"
  | EMBEDDING => "EMBEDDING" | CONTROLNET => "CONTROLNET"
  | UPSCALER => "UPSCALER" | CUSTOM_NODE => "CUSTOM_NODE"
  | UNKNOWN => "UNKNOWN"
  end.

Inductive ComputeType := GPU | CPU.

Record ScannedItem := mkScanned {
  id : string;
  rawName : string;
  isNode : bool
}.

(** [EnrichedResource extends ScannedItem].  [description] is not among the
    required fields of the response schema, so it can be [undefined]. *)
Record EnrichedResource := mkEnriched {
  r_id : string;
  r_rawName : string;
  r_isNode : bool;
  name : string;
  type : ResourceType;
  description : option string;
  targetPath : string;
  downloadUrl : string;
  confidence : Q;
  computeType : ComputeType;
  fileSize : string
}.

(** [HistoryItem extends EnrichedResource] with [dateAdded]. *)
Record HistoryItem := mkHistory {
  h_resource : EnrichedResource;
  dateAdded : string
}.

(* ===================================================================== *)
(** ** App.tsx: the download history *)
(* ===================================================================== *)

Module App.

Definition h_downloadUrl (h : HistoryItem) : string :=
  downloadUrl (h_resource h).

(** [resources.map(r => ({...r, dateAdded: timestamp}))] *)
Definition newItems (resources : list EnrichedResource) (timestamp : string)
  : list HistoryItem :=
  map (fun r => mkHistory r timestamp) resources.

(** [new Set(prev.map(h => h.downloadUrl))] *)
Definition existingUrls (prev : list HistoryItem) : list string :=
  map h_downloadUrl prev.

(** [newItems.filter(i => i.downloadUrl && !existingUrls.has(i.downloadUrl))] *)
Definition filteredNew (resources : list EnrichedResource)
           (timestamp : string) (prev : list HistoryItem) : list HistoryItem :=
  filter (fun i => JsString.truthy (h_downloadUrl i) &&
                   negb (JsString.mem (h_downloadUrl i) (existingUrls prev)))
         (newItems resources timestamp).

(** The updater given to [setHistory] by [addToHistory]: the new state,
    which is also what is written to local storage. *)
Definition addToHistory (resources : list EnrichedResource)
           (timestamp : string) (prev : list HistoryItem) : list HistoryItem :=
  (filteredNew resources timestamp prev ++ prev)%list.

Definition clearHistory (prev : list HistoryItem) : list HistoryItem := [].

(** The operations that change the history, and their effect. *)
Inductive HistoryOp :=
| Commit (resources : list EnrichedResource) (timestamp : string)
| Clear.

Definition applyOp (h : list HistoryItem) (op : HistoryOp) : list HistoryItem :=
  match op with
  | Commit rs ts => addToHistory rs ts h
  | Clear => clearHistory h
  end.

(** The history after a run of operations, starting from an empty store. *)
Definition runOps (ops : list HistoryOp) : list HistoryItem :=
  fold_left applyOp ops [].

End App.

(* ===================================================================== *)
(** ** Values produced by [JSON.parse] *)
(* ===================================================================== *)

(** A parsed JSON value as JavaScript sees it.  A number is the rational
    its double denotes (the code only tests numbers for being zero).  An
    object is the list of its own properties in [for ... in] order, one
    entry per key. *)
#[warnings="-register-all"]
Inductive JSON :=
| JNull
| JBool (b : bool)
| JNum (q : Q)
| JStr (s : string)
| JArr (elems : list JSON)
| JObj (props : list (string * JSON)).

Module Js.

(** Exceptions that reach the caller of the parser. *)
Inductive Exn :=
| InvalidJSON   (* [new Error("Invalid JSON format")] *)
| TypeError.    (* raised by the engine *)

Definition Throwing (A : Type) : Type := (Exn + A)%type.

(** Truthiness of a value; [None] is [undefined]. *)
Definition truthy (v : option JSON) : bool :=
  match v with
  | None | Some JNull => false
  | Some (JBool b) => b
  | Some (JNum q) => negb (Qeq_bool q 0)
  | Some (JStr s) => JsString.truthy s
  | Some (JArr _) | Some (JObj _) => true
  end.

(** [Array.isArray(v)] *)
Definition isArray (v : option JSON) : bool :=
  match v with Some (JArr _) => true | _ => false end.

Fixpoint assoc (k : string) (o : list (string * JSON)) : option JSON :=
  match o with
  | [] => None
  | (k', v) :: o' => if String.eqb k k' then Some v else assoc k o'
  end.

(** [v.k] for a property name [k] that is not an index, not [length] and
    not inherited from a prototype (every name the parser reads is such a
    name): a [TypeError] on [null], the own property of an object,
    [undefined] otherwise. *)
Definition getProp (v : JSON) (k : string) : Throwing (option JSON) :=
  match v with
  | JNull => inl TypeError
  | JObj o => inr (assoc k o)
  | _ => inr None
  end.

(** The decimal numeral of an index, the key of an array element. *)
Definition indexKey (n : nat) : string :=
  NilEmpty.string_of_uint (Nat.to_uint n).

Fixpoint indexed {A} (n : nat) (l : list A) : list (string * A) :=
  match l with
  | [] => []
  | x :: l' => (indexKey n, x) :: indexed (S n) l'
  end.

Fixpoint chars (s : string) : list JSON :=
  match s with
  | EmptyString => []
  | String c s' => JStr (String c EmptyString) :: chars s'
  end.

(** The pairs [(key, v[key])] that [for (const key in v)] goes through. *)
Definition forIn (v : JSON) : list (string * JSON) :=
  match v with
  | JObj o => o
  | JArr l => indexed 0 l
  | JStr s => indexed 0 (chars s)
  | JNull | JBool _ | JNum _ => []
  end.

End Js.

(* ===================================================================== *)
(** ** services/comfyParser.ts *)
(* ===================================================================== *)

Module ComfyParser.
Import Js.

Definition CORE_NODES : list string :=
  [ "KSampler"; "CheckpointLoaderSimple"; "CLIPTextEncode"; "VAEDecode";
    "EmptyLatentImage"; "SaveImage"; "PreviewImage"; "LoadImage"; "Note";
    "PrimitiveNode"; "Reroute"; "LoraLoader"; "VAELoader";
    "ControlNetLoader"; "UpscaleModelLoader"; "Group" ].

(** [isCoreNode(type)]: [CORE_NODES.has] is false on anything but a
    listed string, and [type.startsWith] is a function only on strings. *)
Definition isCoreNode (t : JSON) : Throwing bool :=
  match t with
  | JStr s => inr (JsString.mem s CORE_NODES || JsString.startsWith s "ComfyUI")
  | _ => inl TypeError
  end.

Definition fileKeys : list string :=
  [ "ckpt_name"; "lora_name"; "vae_name"; "control_net_name";
    "upscale_model_name"; "model_name"; "embedding"; "image" ].

(** The [Map<string, ScannedItem>] named [items], in insertion order, and
    the number of identifiers drawn so far. *)
Record State := mkState {
  items : list (string * ScannedItem);
  drawn : nat
}.

Definition Map_has (k : string) (m : list (string * ScannedItem)) : bool :=
  existsb (fun kv => String.eqb k (fst kv)) m.

(** [Map.prototype.set]: replaces the value of a present key in place,
    appends an absent key. *)
Fixpoint Map_set (k : string) (v : ScannedItem)
         (m : list (string * ScannedItem)) : list (string * ScannedItem) :=
  match m with
  | [] => [(k, v)]
  | (k', v') :: m' =>
      if String.eqb k k' then (k, v) :: m' else (k', v') :: Map_set k v m'
  end.

(** [Array.from(items.values())] *)
Definition Map_values (m : list (string * ScannedItem)) : list ScannedItem :=
  map snd m.

(** Computations of the parser body: they read and update [State] and can
    throw. *)
Definition M (A : Type) : Type := State -> Throwing (A * State).

Definition ret {A} (a : A) : M A := fun st => inr (a, st).

Definition bind {A B} (m : M A) (f : A -> M B) : M B :=
  fun st => match m st with
            | inl e => inl e
            | inr (a, st') => f a st'
            end.

Definition lift {A} (t : Throwing A) : M A :=
  fun st => match t with inl e => inl e | inr a => inr (a, st) end.

Notation "x <- m ;; k" := (bind m (fun x => k))
  (at level 61, m at next level, right associativity).
Notation "m ;;; k" := (bind m (fun _ => k))
  (at level 61, right associativity).

Definition when (b : bool) (m : M unit) : M unit := if b then m else ret tt.

(** [l.forEach(f)] and the body of a [for] loop, in order. *)
Fixpoint forEach {A} (f : A -> M unit) (l : list A) : M unit :=
  match l with
  | [] => ret tt
  | a :: l' => f a ;;; forEach f l'
  end.

Section Scan.
Variable randomUUID : nat -> string.
Variable JSON_parse : string -> option JSON.

Definition addItem (name : string) (isNode : bool) : M unit :=
  fun st =>
    if negb (JsString.truthy name) then inr (tt, st)
    else
      let cleanName := JsString.trim name in
      if negb (Map_has cleanName (items st)) then
        inr (tt, mkState
                   (Map_set cleanName
                            (mkScanned (randomUUID (drawn st)) cleanName isNode)
                            (items st))
                   (S (drawn st)))
      else inr (tt, st).

(** The test of [processInputs] on a string value. *)
Definition inputIsFile (key value : string) : bool :=
  let lowerVal := JsString.toLowerCase value in
  JsString.mem key fileKeys ||
  JsString.endsWith lowerVal ".safetensors" ||
  JsString.endsWith lowerVal ".ckpt" ||
  JsString.endsWith lowerVal ".pt" ||
  JsString.endsWith lowerVal ".pth".

Definition processInputs (inputs : option JSON) : M unit :=
  match inputs with
  | None => ret tt
  | Some i =>
      if negb (truthy inputs) then ret tt
      else
        forEach (fun kv : string * JSON =>
                   match snd kv with
                   | JStr value =>
                       when (inputIsFile (fst kv) value) (addItem value false)
                   | _ => ret tt
                   end)
                (forIn i)
  end.

(** The test of the [widgets_values] loop on a string value. *)
Definition widgetIsFile (val : string) : bool :=
  let lowerVal := JsString.toLowerCase val in
  JsString.endsWith lowerVal ".safetensors" ||
  JsString.endsWith lowerVal ".ckpt".

(** [if (t && !isCoreNode(t)) addItem(t, true)] *)
Definition captureType (t : option JSON) : M unit :=
  match t with
  | Some v =>
      if truthy t then
        core <- lift (isCoreNode v) ;;
        match v with
        | JStr s => when (negb core) (addItem s true)
        | _ => ret tt
        end
      else ret tt
  | None => ret tt
  end.

(** The callback of [data.nodes.forEach]. *)
Definition savedNode (node : JSON) : M unit :=
  t <- lift (getProp node "type") ;;
  captureType t ;;;
  w <- lift (getProp node "widgets_values") ;;
  match w with
  | Some (JArr vals) =>
      forEach (fun val =>
                 match val with
                 | JStr s => when (widgetIsFile s) (addItem s false)
                 | _ => ret tt
                 end) vals
  | _ => ret tt
  end.

(** The body of the loop over the keys of an API-format document. *)
Definition apiNode (kv : string * JSON) : M unit :=
  let node := snd kv in
  c <- lift (getProp node "class_type") ;;
  captureType c ;;;
  i <- lift (getProp node "inputs") ;;
  when (truthy i) (processInputs i).

(** Everything after the [JSON.parse] of [parseWorkflowData]. *)
Definition scanBody (data : JSON) : M unit :=
  nodes <- lift (getProp data "nodes") ;;
  match nodes with
  | Some (JArr ns) => forEach savedNode ns
  | _ => forEach apiNode (forIn data)
  end.

Definition scanData (data : JSON) : Throwing (list ScannedItem) :=
  match scanBody data (mkState [] 0) with
  | inl e => inl e
  | inr (_, st) => inr (Map_values (items st))
  end.

Definition parseWorkflowData (jsonString : string)
  : Throwing (list ScannedItem) :=
  match JSON_parse jsonString with
  | None => inl InvalidJSON
  | Some data => scanData data
  end.

End Scan.

End ComfyParser.

(* ===================================================================== *)
(** ** services/geminiService.ts *)
(* ===================================================================== *)

Module GeminiService.

(** One object of the response array, as the response schema shapes it:
    [description] is optional, and [computeType] and [fileSize] are read
    with a fallback, so they may be missing. *)
Record ExternalGuess := mkGuess {
  g_rawName : string;
  g_name : string;
  g_type : ResourceType;
  g_description : option string;
  g_targetPath : string;
  g_downloadUrl : string;
  g_computeType : option ComputeType;
  g_fileSize : option string
}.

(** What one [generateContent] call comes to.
    - [Rejected]: the awaited promise rejects.
    - [NoText]: [response.text] is undefined or empty.
    - [Unparsable]: [JSON.parse(response.text)] throws, or the parsed value
      has no [map] (it is not an array) or holds a [null], so that the
      [map] throws; both happen inside the [try].
    - [Parsed gs]: the text parses to the array of objects [gs], shaped
      as the response schema of the call says. *)
Inductive Outcome :=
| Rejected
| NoText
| Unparsable
| Parsed (gs : list ExternalGuess).

Inductive Exn :=
| ApiKeyMissing   (* thrown by [getClient] *)
| ApiError.       (* the rejection of [generateContent] *)

Definition BATCH_SIZE : nat := 20.

(** The loop that fills [chunks]: [items.slice(i, i + BATCH_SIZE)] for
    [i = 0, BATCH_SIZE, ...] below [items.length].  [fuel] bounds the
    number of rounds; [length items] rounds are enough. *)
Fixpoint chunksFrom (fuel : nat) (items : list ScannedItem)
  : list (list ScannedItem) :=
  match fuel with
  | O => []
  | S fuel' =>
      match items with
      | [] => []
      | _ :: _ =>
          firstn BATCH_SIZE items :: chunksFrom fuel' (skipn BATCH_SIZE items)
      end
  end.

Definition chunksOf (items : list ScannedItem) : list (list ScannedItem) :=
  chunksFrom (List.length items) items.

(** [res.computeType || (res.type === CUSTOM_NODE ? 'CPU' : 'GPU')] *)
Definition computeTypeOf (res : ExternalGuess) : ComputeType :=
  match g_computeType res with
  | Some c => c
  | None => if ResourceType_eqb (g_type res) CUSTOM_NODE then CPU else GPU
  end.

(** [res.fileSize || 'N/A'] *)
Definition fileSizeOf (res : ExternalGuess) : string :=
  match g_fileSize res with
  | Some s => if JsString.truthy s then s else "N/A"
  | None => "N/A"
  end.

Section Resolve.
(** The [k]-th identifier that [crypto.randomUUID] returns during one
    resolution; a batch that throws half way through its [map] leaves
    no trace of the identifiers it drew. *)
Variable randomUUID : nat -> string.
(** [process.env.API_KEY] *)
Variable API_KEY : string.
(** The outcome of the call made for the [k]-th chunk. *)
Variable ai : nat -> list ScannedItem -> Outcome.

(** [chunk.find(c => c.rawName === res.rawName)] *)
Definition findOriginal (chunk : list ScannedItem) (res : ExternalGuess)
  : option ScannedItem :=
  find (fun c => String.eqb (rawName c) (g_rawName res)) chunk.

(** The callback of [jsonResponse.map], with [n] identifiers drawn
    before it runs. *)
Definition merge (chunk : list ScannedItem) (res : ExternalGuess) (n : nat)
  : EnrichedResource * nat :=
  let original := findOriginal chunk res in
  let '(i, n') := match original with
                  | Some o => (id o, n)
                  | None => (randomUUID n, S n)
                  end in
  (mkEnriched i
              (g_rawName res)
              (match original with Some o => isNode o | None => false end)
              (g_name res)
              (g_type res)
              (g_description res)
              (g_targetPath res)
              (g_downloadUrl res)
              (9 # 10)%Q
              (computeTypeOf res)
              (fileSizeOf res),
   n').

(** [jsonResponse.map(...)] *)
Fixpoint mergedChunk (chunk : list ScannedItem) (gs : list ExternalGuess)
         (n : nat) : list EnrichedResource * nat :=
  match gs with
  | [] => ([], n)
  | res :: gs' =>
      let '(r, n1) := merge chunk res n in
      let '(rs, n2) := mergedChunk chunk gs' n1 in
      (r :: rs, n2)
  end.

(** [for (const chunk of chunks) { ... }]; [k] is the index of the
    first chunk left, [allEnriched] the accumulator. *)
Fixpoint resolveLoop (k : nat) (chunks : list (list ScannedItem))
         (allEnriched : list EnrichedResource) (n : nat)
  : Exn + list EnrichedResource :=
  match chunks with
  | [] => inr allEnriched
  | chunk :: rest =>
      match ai k chunk with
      | Rejected => inl ApiError
      | NoText => resolveLoop (S k) rest allEnriched n
      | Unparsable => resolveLoop (S k) rest allEnriched n
      | Parsed gs =>
          let '(merged, n') := mergedChunk chunk gs n in
          resolveLoop (S k) rest (allEnriched ++ merged)%list n'
      end
  end.

Definition analyzeResourcesWithGemini (items : list ScannedItem)
  : Exn + list EnrichedResource :=
  if negb (JsString.truthy API_KEY) then inl ApiKeyMissing
  else resolveLoop 0 (chunksOf items) [] 0.

End Resolve.

End GeminiService.

(* ===================================================================== *)
(** ** components/ScriptPreview.tsx *)
(* ===================================================================== *)

Module ScriptPreview.

(** *** URL validation *)

Record Verdict := mkVerdict {
  isValid : bool;
  reason : option string
}.

Definition commonModelHosts : list string :=
  [ "civitai.com"; "huggingface.co"; "files.catbox.moe" ].

(** [/\.(safetensors|ckpt|pt|pth|bin)$/i.test(s)] *)
Definition modelExtension (s : string) : bool :=
  existsb (fun e => JsString.endsWith (JsString.toLowerCase s) ("." ++ e))
          [ "safetensors"; "ckpt"; "pt"; "pth"; "bin" ].

Definition isDirectDownloadUrl (url : string) (t : ResourceType) : Verdict :=
  if negb (JsString.truthy url) || (String.length url <? 5)%nat then
    mkVerdict false (Some "URL is empty or too short.")
  else
    let lowerUrl := JsString.toLowerCase url in
    if JsString.startsWith lowerUrl "search:" then
      mkVerdict false
        (Some "This is a search query, not a direct download link.")
    else if JsString.startsWith lowerUrl "page:" then
      mkVerdict false
        (Some "This is a general page, not a direct download link.")
    else if negb (JsString.startsWith lowerUrl "http://") &&
            negb (JsString.startsWith lowerUrl "https://") then
      if ResourceType_eqb t CUSTOM_NODE &&
         JsString.startsWith lowerUrl "git@" &&
         JsString.includes lowerUrl "github.com"
      then mkVerdict true None
      else mkVerdict false
             (Some "URL does not start with http(s):// or is not a recognized GitHub SSH URL.")
    else if ResourceType_eqb t CUSTOM_NODE then
      if negb (JsString.includes lowerUrl "github.com") then
        mkVerdict false (Some "Custom Node URL should be a GitHub repository.")
      else mkVerdict true None
    else
      if negb (existsb (fun host => JsString.includes lowerUrl host)
                       commonModelHosts) &&
         negb (modelExtension lowerUrl)
      then mkVerdict false
             (Some "Model URL might not be a direct download or recognized hosting platform.")
      else mkVerdict true None.

(** *** The folder name of a repository *)

(** A backtracking matcher for the two regular expressions of
    [getRepoFolderName]; every function returns the text of capture
    group 1 of the first match found in the order the engine tries. *)
Module Regex.

(** [.] does not match a line terminator. *)
Definition lineTerminator (c : ascii) : bool :=
  let n := nat_of_ascii c in ((n =? 10) || (n =? 13))%nat.

(** A literal of lower-case letters and signs at the head of [t],
    letters compared without case; the rest of [t] after it. *)
Fixpoint literal (p t : string) : option string :=
  match p with
  | EmptyString => Some t
  | String a p' =>
      match t with
      | EmptyString => None
      | String b t' =>
          if Ascii.eqb (JsString.lowerChar b) a then literal p' t' else None
      end
  end.

(** [(?:lit)?] followed by the continuation [k]: greedy, with the
    empty alternative tried when the first one fails. *)
Definition optional (lit : string) (k : string -> option string)
           (t : string) : option string :=
  match literal lit t with
  | Some t' => match k t' with Some g => Some g | None => k t end
  | None => k t
  end.

(** [(?:\.git)?$] *)
Definition gitEnd (t : string) : bool :=
  match optional ".git"
                 (fun r => match r with
                           | EmptyString => Some EmptyString
                           | _ => None
                           end) t with
  | Some _ => true
  | None => false
  end.

Definition groupChar (c : ascii) : bool :=
  negb (Ascii.eqb c "/") && negb (Ascii.eqb c ".").

(** [([^/.]+?)(?:\.git)?$] after the group has taken [g] and one more
    character is [c]: lazy, the shortest group first. *)
Fixpoint groupMore (g : string) (c : ascii) (t : string) : option string :=
  if groupChar c then
    let g' := g ++ String c EmptyString in
    if gitEnd t then Some g'
    else match t with
         | EmptyString => None
         | String c' t' => groupMore g' c' t'
         end
  else None.

Definition group (t : string) : option string :=
  match t with
  | EmptyString => None
  | String c t' => groupMore EmptyString c t'
  end.

(** [.*?\/([^/.]+?)(?:\.git)?$]: lazy, the shortest run first. *)
Fixpoint lazyThenSlash (t : string) : option string :=
  match t with
  | EmptyString => None
  | String c t' =>
      match (if Ascii.eqb c "/" then group t' else None) with
      | Some g => Some g
      | None => if lineTerminator c then None else lazyThenSlash t'
      end
  end.

(** The first start position at which [m] matches. *)
Fixpoint search (m : string -> option string) (t : string) : option string :=
  match m t with
  | Some g => Some g
  | None => match t with
            | EmptyString => None
            | String _ t' => search m t'
            end
  end.

Definition andThen (a : option string) (k : string -> option string)
  : option string :=
  match a with Some t => k t | None => None end.

(** [/git@github\.com:.*?\/([^/.]+?)(?:\.git)?$/i] *)
Definition sshMatch (url : string) : option string :=
  search (fun t => andThen (literal "git@github.com:" t) lazyThenSlash) url.

(** [/https?:\/\/(?:www\.)?github\.com\/.*?\/([^/.]+?)(?:\.git)?$/i] *)
Definition httpsMatch (url : string) : option string :=
  search (fun t =>
            andThen (literal "http" t)
              (optional "s" (fun t1 =>
                 andThen (literal "://" t1)
                   (optional "www." (fun t2 =>
                      andThen (literal "github.com/" t2) lazyThenSlash)))))
         url.

End Regex.

(** The tail of both branches of the fallback: strip a final [.git],
    and use ['unknown_node'] for a missing or empty name. *)
Definition folderOf (segment : option string) : string :=
  let repoName :=
    match segment with
    | Some s =>
        if JsString.truthy s && JsString.endsWith s ".git"
        then Some (JsString.dropEnd 4 s) else Some s
    | None => None
    end in
  match repoName with
  | Some s => if JsString.truthy s then s else "unknown_node"
  | None => "unknown_node"
  end.

Definition lastOf (l : list string) : option string :=
  nth_error l (List.length l - 1).

Section Script.
(** [new URL(url).pathname], or [None] when the constructor throws. *)
Variable URL_pathname : string -> option string.

Definition getRepoFolderName (url : string) : string :=
  match Regex.sshMatch url with
  | Some g => g
  | None =>
      match Regex.httpsMatch url with
      | Some g => g
      | None =>
          match URL_pathname url with
          | Some pathname =>
              let pathSegments :=
                filter (fun p => (0 <? String.length p)%nat)
                       (JsString.split "/" pathname) in
              folderOf (lastOf pathSegments)
          | None =>
              let segments := JsString.split "/" url in
              folderOf (lastOf segments)
          end
      end
  end.

(** *** The installer script *)

Inductive Format := bash | bat.

(** The line feed and the double quote of the template literals. *)
Definition nl : string := String (ascii_of_nat 10) EmptyString.
Definition dq : string := String (ascii_of_nat 34) EmptyString.
Definition quoted (s : string) : string := dq ++ s ++ dq.

Definition rule : string :=
  "----------------------------------------------------------------".

(** The callback of [resources.forEach] in the [bash] branch; [script]
    is the text built so far, the result the text after the call. *)
Definition bashResource (script : string) (r : EnrichedResource) : string :=
  if negb (JsString.truthy (downloadUrl r)) then script
  else
    let script := script ++ "# " ++ rule ++ nl in
    let script := script ++ "# [" ++ ResourceType_str (type r) ++ "] " ++ name r ++ nl in
    if ResourceType_eqb (type r) CUSTOM_NODE then
      let repoDir := getRepoFolderName (downloadUrl r) in
      let script := script ++ "echo " ++ dq ++ "Processing Custom Node: " ++ name r ++ "..." ++ dq ++ nl in
      let script := script ++ "mkdir -p " ++ quoted "custom_nodes" ++ nl in
      let script := script ++ "cd " ++ quoted "custom_nodes" ++ nl in
      let script := script ++ "if [ ! -d " ++ quoted repoDir ++ " ]; then" ++ nl in
      let script := script ++ "  echo " ++ dq ++ "  Cloning repo '" ++ downloadUrl r ++ "'..." ++ dq ++ nl in
      let script := script ++ "  git clone " ++ quoted (downloadUrl r) ++ nl in
      let script := script ++ "  if [ $? -ne 0 ]; then" ++ nl in
      let script := script ++ "    echo " ++ dq ++ "  ERROR: Git clone failed for " ++ name r ++ ". Check URL and internet connection." ++ dq ++ nl in
      let script := script ++ "  else" ++ nl in
      let script := script ++ "    echo " ++ dq ++ "  Clone successful." ++ dq ++ nl in
      let script := script ++ "  fi" ++ nl in
      let script := script ++ "else" ++ nl in
      let script := script ++ "  echo " ++ dq ++ "  Folder '" ++ repoDir ++ "' already exists. Skipping clone." ++ dq ++ nl in
      let script := script ++ "fi" ++ nl in
      (* Post-clone setup *)
      let script := script ++ "if [ -d " ++ quoted repoDir ++ " ]; then" ++ nl in
      let script := script ++ "  cd " ++ quoted repoDir ++ nl in
      (* Submodule handling *)
      let script := script ++ "  if [ -f " ++ quoted ".gitmodules" ++ " ]; then" ++ nl in
      let script := script ++ "    echo " ++ dq ++ "  Initializing submodules..." ++ dq ++ nl in
      let script := script ++ "    git submodule update --init --recursive" ++ nl in
      let script := script ++ "    if [ $? -ne 0 ]; then" ++ nl in
      let script := script ++ "      echo " ++ dq ++ "  WARNING: Submodule update failed for " ++ name r ++ "." ++ dq ++ nl in
      let script := script ++ "    }" ++ nl in
      let script := script ++ "  fi" ++ nl in
      (* requirements.txt *)
      let script := script ++ "  if [ -f " ++ quoted "requirements.txt" ++ " ]; then" ++ nl in
      let script := script ++ "    echo " ++ dq ++ "  Installing requirements.txt..." ++ dq ++ nl in
      let script := script ++ "    pip install -r requirements.txt" ++ nl in
      let script := script ++ "    if [ $? -ne 0 ]; then" ++ nl in
      let script := script ++ "      echo " ++ dq ++ "  WARNING: Pip installation failed for " ++ name r ++ " requirements." ++ dq ++ nl in
      let script := script ++ "    fi" ++ nl in
      let script := script ++ "  fi" ++ nl in
      (* install.py *)
      let script := script ++ "  if [ -f " ++ quoted "install.py" ++ " ]; then" ++ nl in
      let script := script ++ "    echo " ++ dq ++ "  Running install.py..." ++ dq ++ nl in
      let script := script ++ "    python install.py" ++ nl in
      let script := script ++ "    if [ $? -ne 0 ]; then" ++ nl in
      let script := script ++ "      echo " ++ dq ++ "  WARNING: install.py failed for " ++ name r ++ "." ++ dq ++ nl in
      let script := script ++ "    fi" ++ nl in
      let script := script ++ "  fi" ++ nl in
      let script := script ++ "  cd .." ++ nl in
      let script := script ++ "fi" ++ nl in
      let script := script ++ "cd .." ++ nl ++ nl in
      script
    else
      let script := script ++ "echo " ++ dq ++ "Processing Model: " ++ name r ++ "..." ++ dq ++ nl in
      let script := script ++ "mkdir -p " ++ quoted (targetPath r) ++ nl in
      let script := script ++ "if [ ! -f " ++ quoted (targetPath r ++ "/" ++ r_rawName r) ++ " ]; then" ++ nl in
      let script := script ++ "  echo " ++ dq ++ "  Downloading '" ++ downloadUrl r ++ "' to '" ++ targetPath r ++ "/" ++ r_rawName r ++ "'..." ++ dq ++ nl in
      let script := script ++ "  wget -c --show-progress -O " ++ quoted (targetPath r ++ "/" ++ r_rawName r) ++ " " ++ quoted (downloadUrl r) ++ nl in
      let script := script ++ "  if [ $? -ne 0 ]; then" ++ nl in
      let script := script ++ "    echo " ++ dq ++ "  ERROR: Download failed for " ++ name r ++ " from " ++ downloadUrl r ++ dq ++ nl in
      let script := script ++ "    echo " ++ dq ++ "  Please check the URL and your network connection, or try downloading manually." ++ dq ++ nl in
      let script := script ++ "  else" ++ nl in
      let script := script ++ "    echo " ++ dq ++ "  Download successful for " ++ name r ++ "." ++ dq ++ nl in
      let script := script ++ "  fi" ++ nl in
      let script := script ++ "else" ++ nl in
      let script := script ++ "  echo " ++ dq ++ "  File '" ++ r_rawName r ++ "' already exists in '" ++ targetPath r ++ "'. Skipping download." ++ dq ++ nl in
      let script := script ++ "fi" ++ nl ++ nl in
      script.

(** The callback of [resources.forEach] in the batch branch. *)
Definition batResource (script : string) (r : EnrichedResource) : string :=
  if negb (JsString.truthy (downloadUrl r)) then script
  else
    let script := script ++ ":: " ++ rule ++ nl in
    let script := script ++ ":: [" ++ ResourceType_str (type r) ++ "] " ++ name r ++ nl in
    if ResourceType_eqb (type r) CUSTOM_NODE then
      let repoDir := getRepoFolderName (downloadUrl r) in
      let winPath := "custom_nodes" in
      let script := script ++ "echo Processing Custom Node: " ++ name r ++ "..." ++ nl in
      let script := script ++ "if not exist " ++ quoted winPath ++ " mkdir " ++ quoted winPath ++ nl in
      let script := script ++ "cd " ++ quoted winPath ++ nl in
      let script := script ++ "if not exist " ++ quoted repoDir ++ " (" ++ nl in
      let script := script ++ "  echo   Cloning repo '" ++ downloadUrl r ++ "'..." ++ nl in
      let script := script ++ "  git clone " ++ quoted (downloadUrl r) ++ nl in
      let script := script ++ "  if %ERRORLEVEL% NEQ 0 (" ++ nl in
      let script := script ++ "    echo   ERROR: Git clone failed for " ++ name r ++ ". Check URL and internet connection." ++ nl in
      let script := script ++ "  ) else (" ++ nl in
      let script := script ++ "    echo   Clone successful." ++ nl in
      let script := script ++ "  )" ++ nl in
      let script := script ++ ") else (" ++ nl in
      let script := script ++ "  echo   Folder '" ++ repoDir ++ "' already exists. Skipping clone." ++ nl in
      let script := script ++ ")" ++ nl in
      (* Post-clone setup *)
      let script := script ++ "if exist " ++ quoted repoDir ++ " (" ++ nl in
      let script := script ++ "  cd " ++ quoted repoDir ++ nl in
      (* Submodule check *)
      let script := script ++ "  if exist " ++ quoted ".gitmodules" ++ " (" ++ nl in
      let script := script ++ "    echo   Initializing submodules..." ++ nl in
      let script := script ++ "    git submodule update --init --recursive" ++ nl in
      let script := script ++ "    if %ERRORLEVEL% NEQ 0 (" ++ nl in
      let script := script ++ "      echo   WARNING: Submodule update failed for " ++ name r ++ "." ++ nl in
      let script := script ++ "    )" ++ nl in
      let script := script ++ "  )" ++ nl in
      (* requirements.txt *)
      let script := script ++ "  if exist " ++ quoted "requirements.txt" ++ " (" ++ nl in
      let script := script ++ "    echo   Installing requirements.txt..." ++ nl in
      let script := script ++ "    %PIP_EXE% install -r requirements.txt" ++ nl in
      let script := script ++ "    if %ERRORLEVEL% NEQ 0 (" ++ nl in
      let script := script ++ "      echo   WARNING: Pip installation failed for " ++ name r ++ " requirements." ++ nl in
      let script := script ++ "    )" ++ nl in
      let script := script ++ "  )" ++ nl in
      (* install.py *)
      let script := script ++ "  if exist " ++ quoted "install.py" ++ " (" ++ nl in
      let script := script ++ "    echo   Running install.py..." ++ nl in
      let script := script ++ "    %PYTHON_EXE% install.py" ++ nl in
      let script := script ++ "    if %ERRORLEVEL% NEQ 0 (" ++ nl in
      let script := script ++ "      echo   WARNING: install.py failed for " ++ name r ++ "." ++ nl in
      let script := script ++ "    )" ++ nl in
      let script := script ++ "  )" ++ nl in
      let script := script ++ "  cd .." ++ nl in
      let script := script ++ ")" ++ nl in
      let script := script ++ "cd .." ++ nl ++ nl in
      script
    else
      let winPath := JsString.replaceAll "/" "\" (targetPath r) in
      let script := script ++ "echo Processing Model: " ++ name r ++ "..." ++ nl in
      let script := script ++ "if not exist " ++ quoted winPath ++ " mkdir " ++ quoted winPath ++ nl in
      let script := script ++ "if not exist " ++ quoted (winPath ++ "\" ++ r_rawName r) ++ " (" ++ nl in
      let script := script ++ "  echo   Downloading '" ++ downloadUrl r ++ "' to '" ++ winPath ++ "\" ++ r_rawName r ++ "'..." ++ nl in
      let script := script ++ "  powershell -Command " ++ dq ++ "$ProgressPreference = 'Continue'; try { Invoke-WebRequest -Uri '" ++ downloadUrl r ++ "' -OutFile '" ++ winPath ++ "\" ++ r_rawName r ++ "' -ErrorAction Stop | Out-Null; Write-Host '  Download successful for " ++ name r ++ ".' } catch { Write-Host '  ERROR: Download failed for " ++ name r ++ " from " ++ downloadUrl r ++ " - $($_.Exception.Message)'; Write-Host '  Please check the URL and your network connection, or try downloading manually.' }" ++ dq ++ " " ++ nl in
      let script := script ++ ") else (" ++ nl in
      let script := script ++ "  echo   File '" ++ r_rawName r ++ "' already exists in '" ++ winPath ++ "'. Skipping download." ++ nl in
      let script := script ++ ")" ++ nl ++ nl in
      script.

(** The text before the first resource. *)
Definition header (format : Format) (timestamp : string) : string :=
  match format with
  | bash =>
      let script := "#!/bin/bash" ++ nl ++ "# ComfyUI Resource Installer - Generated on " ++ timestamp ++ nl in
      let script := script ++ "# NOTE: Run this script from your 'ComfyUI' root folder." ++ nl in
      let script := script ++ "# Assumes 'python' and 'pip' are in your PATH (active venv)." ++ nl ++ nl in
      let script := script ++ "echo " ++ dq ++ "Starting ComfyUI Resource Download..." ++ dq ++ nl ++ nl in
      script
  | bat =>
      let script := "@echo off" ++ nl ++ ":: ComfyUI Resource Installer - Generated on " ++ timestamp ++ nl in
      let script := script ++ ":: NOTE: Run this from your 'ComfyUI' root folder." ++ nl ++ nl in
      let script := script ++ ":: --- Environment Setup ---" ++ nl in
      let script := script ++ "set " ++ quoted "PYTHON_EXE=python" ++ nl in
      let script := script ++ "set " ++ quoted "PIP_EXE=pip" ++ nl ++ nl in
      let script := script ++ "if exist " ++ quoted "..\python_embeded\python.exe" ++ " (" ++ nl in
      let script := script ++ "    echo [INFO] Detected ComfyUI Portable Environment." ++ nl in
      let script := script ++ "    set " ++ quoted "PYTHON_EXE=..\python_embeded\python.exe" ++ nl in
      let script := script ++ "    set " ++ quoted "PIP_EXE=..\python_embeded\python.exe -m pip" ++ nl in
      let script := script ++ ") else (" ++ nl in
      let script := script ++ "    echo [INFO] Using system Python. Ensure it is in your PATH." ++ nl in
      let script := script ++ ")" ++ nl ++ nl in
      let script := script ++ "echo Starting ComfyUI Resource Download..." ++ nl ++ nl in
      script
  end.

(** The text after the last resource. *)
Definition trailer (format : Format) : string :=
  match format with
  | bash =>
      "echo " ++ dq ++ rule ++ dq ++ nl ++
      "echo " ++ dq ++ "All done! Please restart ComfyUI." ++ dq
  | bat =>
      "echo " ++ rule ++ nl ++
      "echo All done! Please restart ComfyUI." ++ nl ++ "pause"
  end.

Definition perResource (format : Format)
  : string -> EnrichedResource -> string :=
  match format with bash => bashResource | bat => batResource end.

(** [generateScript()]: [now] is [new Date().toISOString()]; the
    component's [format] and [resources] are arguments. *)
Definition generateScript (format : Format) (now : string)
           (resources : list EnrichedResource) : string :=
  let timestamp := hd EmptyString (JsString.split "T" now) in
  let script := header format timestamp in
  let script := fold_left (perResource format) resources script in
  script ++ trailer format.

End Script.

End ScriptPreview.

(* ===================================================================== *)
(** ** The two document shapes of the scanner's contract *)
(* ===================================================================== *)

(** The shapes as the specification words them.  Graph form: a top-level
    ordered list [nodes] of node records, each with a [type] identifier.
    Execution form: a mapping from keys to node records, each with a
    [class_type] identifier.  A node record is an object; its identifier
    is a string (a record without the field is let through as well, and
    nothing is asked of [widgets_values] or [inputs]). *)
Module WorkflowShape.
Import Js.

Definition stringOrAbsent (v : option JSON) : bool :=
  match v with
  | None | Some (JStr _) => true
  | _ => false
  end.

Definition isNodeRecord (field : string) (node : JSON) : bool :=
  match node with
  | JObj p => stringOrAbsent (assoc field p)
  | _ => false
  end.

Definition isGraphForm (data : JSON) : bool :=
  match data with
  | JObj o =>
      match assoc "nodes" o with
      | Some (JArr ns) => forallb (isNodeRecord "type") ns
      | _ => false
      end
  | _ => false
  end.

Definition isExecutionForm (data : JSON) : bool :=
  match data with
  | JObj o => forallb (fun kv => isNodeRecord "class_type" (snd kv)) o
  | _ => false
  end.

Definition wellShaped (data : JSON) : bool :=
  isGraphForm data || isExecutionForm data.

End WorkflowShape.

(* ===================================================================== *)
(** ** Invariants of the scanner's state *)
(* ===================================================================== *)

Module ScanLogic.
Import Js ComfyParser.

(** [spec I E m]: from a state in [I], [m] ends in a state in [I] or
    throws an exception in [E]. *)
Definition spec {A} (I : State -> Prop) (E : Exn -> Prop) (m : M A) : Prop :=
  forall st, I st ->
             match m st with
             | inl e => E e
             | inr (_, st') => I st'
             end.

Definition headNotWhite (l : list ascii) : Prop :=
  match l with
  | [] => True
  | c :: _ => JsString.isWhite c = false
  end.

(** The invariant of [items]: keys are distinct, every entry is filed
    under its own [rawName], and every [rawName] is trimmed. *)
Definition wf (st : State) : Prop :=
  NoDup (map fst (items st)) /\
  Forall (fun kv => rawName (snd kv) = fst kv /\
                    JsString.trim (fst kv) = fst kv) (items st).

End ScanLogic.

(* ===================================================================== *)
(** ** What the resolver adds for a guess and for a chunk *)
(* ===================================================================== *)

Module ResolverLogic.
Import GeminiService.

(** How the resource [r] stands to the guess [res] it was merged from and
    to the chunk the guess answers: every field but the identity is the
    guess's, with the fallbacks; the identity is that of the first item of
    the chunk with the guess's [rawName], or a drawn identifier and
    [isNode = false] when the chunk has no such item. *)
Definition mergedFrom (randomUUID : nat -> string) (chunk : list ScannedItem)
           (res : ExternalGuess) (r : EnrichedResource) : Prop :=
  r_rawName r = g_rawName res /\
  name r = g_name res /\
  type r = g_type res /\
  description r = g_description res /\
  targetPath r = g_targetPath res /\
  downloadUrl r = g_downloadUrl res /\
  confidence r = (9 # 10)%Q /\
  computeType r = computeTypeOf res /\
  fileSize r = fileSizeOf res /\
  match findOriginal chunk res with
  | Some o =>
      In o chunk /\
      r_id r = id o /\ r_rawName r = rawName o /\ r_isNode r = isNode o
  | None =>
      (forall c, In c chunk -> rawName c <> g_rawName res) /\
      (exists k, r_id r = randomUUID k) /\ r_isNode r = false
  end.

(** The resources each chunk adds, chunk by chunk: the merged guesses of a
    chunk whose response parses, nothing for any other chunk. *)
Fixpoint contributions (randomUUID : nat -> string)
         (ai : nat -> list ScannedItem -> Outcome)
         (k : nat) (chunks : list (list ScannedItem)) (n : nat)
  : list (list EnrichedResource) :=
  match chunks with
  | [] => []
  | chunk :: rest =>
      match ai k chunk with
      | Parsed gs =>
          let '(merged, n') := mergedChunk randomUUID chunk gs n in
          merged :: contributions randomUUID ai (S k) rest n'
      | _ => [] :: contributions randomUUID ai (S k) rest n
      end
  end.

(** The fields that the resource [r] takes from the guess [res]: the
    [rawName] and every field that is not part of the identity, with the
    defaults for a missing [computeType] and a missing or empty
    [fileSize], and the constant confidence. *)
Definition copies (res : ExternalGuess) (r : EnrichedResource) : Prop :=
  r_rawName r = g_rawName res /\
  name r = g_name res /\
  type r = g_type res /\
  description r = g_description res /\
  targetPath r = g_targetPath res /\
  downloadUrl r = g_downloadUrl res /\
  confidence r = (9 # 10)%Q /\
  computeType r = match g_computeType res with
                  | Some c => c
                  | None => match g_type res with
                            | CUSTOM_NODE => CPU
                            | _ => GPU
                            end
                  end /\
  fileSize r = match g_fileSize res with
               | Some (String c s) => String c s
               | _ => "N/A"
               end.

(** [o] is the first item of [chunk] whose [rawName] is [nm]. *)
Definition firstNamed (chunk : list ScannedItem) (nm : string)
           (o : ScannedItem) : Prop :=
  exists before after,
    chunk = (before ++ o :: after)%list /\ rawName o = nm /\
    forall c, In c before -> rawName c <> nm.

(** Some item of [chunk] has the [rawName] [nm]. *)
Definition named (chunk : list ScannedItem) (nm : string) : bool :=
  existsb (fun c => String.eqb (rawName c) nm) chunk.

(** The resource [r] for the guess [res] of the response to [chunk], when
    [d] identifiers have been drawn before: the guess's fields, with the
    [id] and [isNode] of the first item of the chunk that has the guess's
    [rawName]; or, when the chunk has no such item, with the next
    identifier drawn and [isNode = false]. *)
Definition follows (randomUUID : nat -> string) (d : nat)
           (chunk : list ScannedItem) (res : ExternalGuess)
           (r : EnrichedResource) : Prop :=
  copies res r /\
  ((exists o, firstNamed chunk (g_rawName res) o /\
              r_id r = id o /\ r_isNode r = isNode o) \/
   ((forall c, In c chunk -> rawName c <> g_rawName res) /\
    r_id r = randomUUID d /\ r_isNode r = false)).

(** The guesses of the parsed responses, each with the chunk it answers:
    chunk after chunk, and in the order of the response within a chunk. *)
Fixpoint guessesOf (ai : nat -> list ScannedItem -> Outcome)
         (k : nat) (chunks : list (list ScannedItem))
  : list (list ScannedItem * ExternalGuess) :=
  match chunks with
  | [] => []
  | chunk :: rest =>
      (match ai k chunk with
       | Parsed gs => map (pair chunk) gs
       | _ => []
       end ++ guessesOf ai (S k) rest)%list
  end.

(** [out] holds one resource per guess of [answered], in the same order;
    a guess that names no item of its chunk takes the next identifier,
    [d] of them being drawn before. *)
Fixpoint followsAll (randomUUID : nat -> string) (d : nat)
         (answered : list (list ScannedItem * ExternalGuess))
         (out : list EnrichedResource) : Prop :=
  match answered, out with
  | [], [] => True
  | (chunk, res) :: answered', r :: out' =>
      follows randomUUID d chunk res r /\
      followsAll randomUUID
                 (if named chunk (g_rawName res) then d else S d)
                 answered' out'
  | _, _ => False
  end.

End ResolverLogic.

(* ===================================================================== *)
(** ** The block structure of an emitted script *)
(* ===================================================================== *)

(** A reading of the conditionals of a script, line by line.  In the POSIX
    dialect a line [if ...; then] opens a conditional and a line [fi]
    closes the innermost open one.  In the batch dialect a line that ends
    in an opening parenthesis opens a group and a line that starts with a
    closing parenthesis closes one ([) else (] does both). *)
Module ShellSyntax.

Definition lines (script : string) : list string :=
  JsString.split (ascii_of_nat 10) script.

Fixpoint stripLeft (s : string) : string :=
  match s with
  | String c s' => if Ascii.eqb c " " then stripLeft s' else s
  | EmptyString => EmptyString
  end.

Definition opensIf (line : string) : bool :=
  let l := stripLeft line in
  JsString.startsWith l "if " && JsString.endsWith l "; then".

Definition closesIf (line : string) : bool :=
  String.eqb (stripLeft line) "fi".

(** The number of conditionals left open after [ls], from [depth] open
    ones; [None] when a [fi] closes nothing. *)
Fixpoint ifDepth (ls : list string) (depth : nat) : option nat :=
  match ls with
  | [] => Some depth
  | l :: ls' =>
      if opensIf l then ifDepth ls' (S depth)
      else if closesIf l then
             match depth with
             | O => None
             | S d => ifDepth ls' d
             end
           else ifDepth ls' depth
  end.

Definition ifsClosed (script : string) : bool :=
  match ifDepth (lines script) 0 with
  | Some O => true
  | _ => false
  end.

Definition opensGroup (line : string) : bool := JsString.endsWith line "(".
Definition closesGroup (line : string) : bool :=
  JsString.startsWith (stripLeft line) ")".

Fixpoint groupDepth (ls : list string) (depth : nat) : option nat :=
  match ls with
  | [] => Some depth
  | l :: ls' =>
      let afterClose :=
        if closesGroup l then
          match depth with O => None | S d => Some d end
        else Some depth in
      match afterClose with
      | None => None
      | Some d => groupDepth ls' (if opensGroup l then S d else d)
      end
  end.

Definition groupsClosed (script : string) : bool :=
  match groupDepth (lines script) 0 with
  | Some O => true
  | _ => false
  end.

End ShellSyntax.

Module ScriptBlocks.
Import ScriptPreview.

(** The block of one resource: what the callback appends to the script. *)
Definition block (URL_pathname : string -> option string)
           (format : Format) (r : EnrichedResource) : string :=
  perResource URL_pathname format EmptyString r.

Definition hasUrl (r : EnrichedResource) : bool :=
  JsString.truthy (downloadUrl r).

Fixpoint concatAll (l : list string) : string :=
  match l with
  | [] => EmptyString
  | s :: l' => s ++ concatAll l'
  end.

(** The blocks of the resources that have a download URL, in order. *)
Definition blocks (URL_pathname : string -> option string)
           (format : Format) (resources : list EnrichedResource) : list string :=
  map (block URL_pathname format) (filter hasUrl resources).

End ScriptBlocks.

(* ===================================================================== *)
(** ** Inputs of the examples *)
(* ===================================================================== *)

Module Examples.
Import Js GeminiService ScriptPreview.

Definition uuidOf (n : nat) : string := "uuid-" ++ indexKey n.

(** Two resources of one commit that share a download URL. *)
Definition dupA : EnrichedResource :=
  mkEnriched "id-a" "a.safetensors" false "Model A" LORA None "models/loras"
             "https://civitai.com/api/download/models/1" (9 # 10)%Q GPU "144MB".
Definition dupB : EnrichedResource :=
  mkEnriched "id-b" "b.safetensors" false "Model B" LORA None "models/loras"
             "https://civitai.com/api/download/models/1" (9 # 10)%Q GPU "144MB".

(** [{"nodes":[{"type":"KSampler","widgets_values":["model.pt"]}]}] *)
Definition docWidgetPt : JSON :=
  JObj [("nodes",
         JArr [JObj [("type", JStr "KSampler");
                     ("widgets_values", JArr [JStr "model.pt"])]])].

(** [{"nodes":[{"type":"KSampler","widgets_values":["model.pth"]}]}] *)
Definition docWidgetPth : JSON :=
  JObj [("nodes",
         JArr [JObj [("type", JStr "KSampler");
                     ("widgets_values", JArr [JStr "model.pth"])]])].

(** [{"4":{"class_type":"KSampler","inputs":{"weights":"model.pt"}}}] *)
Definition docInputPt : JSON :=
  JObj [("4", JObj [("class_type", JStr "KSampler");
                    ("inputs", JObj [("weights", JStr "model.pt")])])].

(** A parser that knows one document; it stands for [JSON.parse] on the
    inputs of the examples below. *)
Definition parseOnly (text : string) (data : JSON) (s : string) : option JSON :=
  if String.eqb s text then Some data else None.

(** [{"4":{"class_type":"CheckpointLoaderSimple","inputs":{"ckpt_name":"v1-5-pruned.ckpt"}}}] *)
Definition scenarioText : string :=
  let q := ScriptPreview.quoted in
  "{" ++ q "4" ++ ":{" ++ q "class_type" ++ ":" ++ q "CheckpointLoaderSimple"
      ++ "," ++ q "inputs" ++ ":{" ++ q "ckpt_name" ++ ":"
      ++ q "v1-5-pruned.ckpt" ++ "}}}".

Definition scenarioDoc : JSON :=
  JObj [("4", JObj [("class_type", JStr "CheckpointLoaderSimple");
                    ("inputs", JObj [("ckpt_name", JStr "v1-5-pruned.ckpt")])])].

(** [{"nodes":[{"type":"FooNode","widgets_values":[" a.ckpt","a.ckpt ","a.ckpt"]}]}] *)
Definition spacedText : string :=
  let q := ScriptPreview.quoted in
  "{" ++ q "nodes" ++ ":[{" ++ q "type" ++ ":" ++ q "FooNode" ++ ","
      ++ q "widgets_values" ++ ":[" ++ q " a.ckpt" ++ "," ++ q "a.ckpt "
      ++ "," ++ q "a.ckpt" ++ "]}]}".

Definition spacedDoc : JSON :=
  JObj [("nodes",
         JArr [JObj [("type", JStr "FooNode");
                     ("widgets_values",
                      JArr [JStr " a.ckpt"; JStr "a.ckpt "; JStr "a.ckpt"])]])].

Definition itemA : ScannedItem := mkScanned "id-a" "v1-5-pruned.ckpt" false.

Definition guessOther : ExternalGuess :=
  mkGuess "sd15.ckpt" "Stable Diffusion 1.5" CHECKPOINT None
          "models/checkpoints" "https://huggingface.co/sd15.ckpt"
          (Some GPU) (Some "4GB").

(** Twenty-one node items, which make two chunks. *)
Definition manyItems : list ScannedItem :=
  map (fun k => mkScanned ("id-" ++ Js.indexKey k) ("Node" ++ Js.indexKey k) true)
      (seq 0 21).

Definition guessLast : ExternalGuess :=
  mkGuess "Node20" "Node 20" CUSTOM_NODE (Some "A node")
          "custom_nodes" "https://github.com/foo/node20" None None.

(** The first call is rejected, the second one answers. *)
Definition aiRejectsFirst (k : nat) (chunk : list ScannedItem) : Outcome :=
  match k with
  | O => Rejected
  | S _ => Parsed [guessLast]
  end.

(** The first response does not parse, the second call answers. *)
Definition aiGarblesFirst (k : nat) (chunk : list ScannedItem) : Outcome :=
  match k with
  | O => Unparsable
  | S _ => Parsed [guessLast]
  end.

(** No URL of the examples reaches [new URL]; the constructor is taken to
    reject everything. *)
Definition noURL (url : string) : option string := None.

Definition nodeBar : EnrichedResource :=
  mkEnriched "id-1" "BarNode" true "Bar" CUSTOM_NODE None "custom_nodes"
             "https://github.com/foo/bar" (9 # 10)%Q CPU "50KB".

Definition modelSd : EnrichedResource :=
  mkEnriched "id-2" "v1-5-pruned.ckpt" false "SD 1.5" CHECKPOINT None
             "models/checkpoints" "https://huggingface.co/sd/v1-5-pruned.ckpt"
             (9 # 10)%Q GPU "4GB".

Definition noLink : EnrichedResource :=
  mkEnriched "id-3" "Mystery" true "Mystery" UNKNOWN None "" "" (9 # 10)%Q GPU "N/A".

End Examples.

(* ===================================================================== *)
(** ** components/ScriptPreview.tsx: the validation effect *)
(* ===================================================================== *)

Module ValidationEffect.
Import ScriptPreview.

Definition fallbackReason : string :=
  "URL is potentially invalid or not a direct link.".

(** [validation.reason || "URL is potentially invalid ..."] *)
Definition reasonOr (validation : Verdict) : string :=
  match reason validation with
  | Some s => if JsString.truthy s then s else fallbackReason
  | None => fallbackReason
  end.

(** The callback of [resources.forEach] in the effect; [errors] is the
    array built so far. *)
Definition pushError (errors : list (EnrichedResource * string))
           (res : EnrichedResource) : list (EnrichedResource * string) :=
  let validation := isDirectDownloadUrl (downloadUrl res) (type res) in
  if negb (isValid validation)
  then (errors ++ [(res, reasonOr validation)])%list
  else errors.

(** The array given to [setValidationErrors]. *)
Definition validationErrors (resources : list EnrichedResource)
  : list (EnrichedResource * string) :=
  fold_left pushError resources [].

(** [showValidationWarning && validationErrors.length > 0]: the warning
    modal is rendered. *)
Definition warningShown (showValidationWarning : bool)
           (resources : list EnrichedResource) : bool :=
  showValidationWarning && (0 <? List.length (validationErrors resources))%nat.

End ValidationEffect.

(* ===================================================================== *)
(** ** components/ResourceManager.tsx: reordering by drag and drop *)
(* ===================================================================== *)

Module ResourceManager.

Inductive SortBy :=
| default | nameAsc | nameDesc | byType | fileSizeAsc | fileSizeDesc.

(** The two refs of the component; [None] is [null]. *)
Record DragRefs := mkRefs {
  draggedItemIndex : option Z;
  dragOverItemIndex : option Z
}.

(** The part of the component's state that [handleDrop] reads and
    writes.  An element of the array is [None] when it is [undefined]. *)
Record State := mkState {
  resources : list (option EnrichedResource);
  sortBy : SortBy;
  refs : DragRefs
}.

(** The actual start of [a.splice(start, ...)] on an array of [len]
    elements: a negative start counts from the end, and the result is
    clamped to the array. *)
Definition spliceStart (start : Z) (len : nat) : nat :=
  if (start <? 0)%Z
  then Z.to_nat (Z.max (Z.of_nat len + start) 0)
  else Z.to_nat (Z.min start (Z.of_nat len)).

(** [a.splice(start, 1)]: the removed elements, and the array after. *)
Definition spliceDelete {A} (start : Z) (a : list A) : list A * list A :=
  let s := spliceStart start (List.length a) in
  (firstn 1 (skipn s a), (firstn s a ++ skipn (S s) a)%list).

(** [a.splice(start, 0, x)]: the array after. *)
Definition spliceInsert {A} (start : Z) (x : A) (a : list A) : list A :=
  let s := spliceStart start (List.length a) in
  (firstn s a ++ x :: skipn s a)%list.

Definition handleDrop (st : State) : State :=
  match draggedItemIndex (refs st), dragOverItemIndex (refs st) with
  | Some dragged, Some over =>
      if (dragged =? over)%Z then st
      else
        let newResources := resources st in
        let '(removed, newResources) := spliceDelete dragged newResources in
        let reorderedItem := match removed with x :: _ => x | [] => None end in
        let newResources := spliceInsert over reorderedItem newResources in
        mkState newResources default (mkRefs None None)
  | _, _ => st
  end.

End ResourceManager.

(* ===================================================================== *)
(** ** App.tsx: from a loaded file to the review *)
(* ===================================================================== *)

Module AppPipeline.

Inductive AppState := IDLE | ANALYZING_LOCAL | ANALYZING_AI | REVIEW | ERROR.

Record WorkflowMetadata := mkMetadata {
  filename : string;
  fileSize : nat;
  nodeCount : nat
}.

(** The state that [handleFileLoaded] writes. *)
Record Model := mkModel {
  appState : AppState;
  resources : list EnrichedResource;
  metadata : option WorkflowMetadata;
  errorMsg : string
}.

(** What reaches the [catch] of [handleFileLoaded]. *)
Inductive Thrown :=
| FromParser (e : Js.Exn)
| NoResources
| FromResolver (e : GeminiService.Exn).

(** The value that a rejected [generateContent] call rejects with: [null]
    or [undefined], or a value whose [message] reads as a string or as
    [undefined] ([None]). *)
Inductive Rejection :=
| Nullish
| WithMessage (message : option string).

Section Pipeline.
(** The identifiers drawn while scanning and while resolving. *)
Variable scanUUID : nat -> string.
Variable resolveUUID : nat -> string.
Variable JSON_parse : string -> option JSON.
Variable API_KEY : string.
Variable ai : nat -> list ScannedItem -> GeminiService.Outcome.
(** The [message] of a [TypeError] of the engine, and the value that a
    rejected call rejects with. *)
Variable typeErrorMessage : string.
Variable apiRejection : Rejection.

(** [e.message]: the outer [None] when reading it throws, which it does
    on [null] and [undefined]; the inner [None] when it is [undefined]. *)
Definition message (e : Thrown) : option (option string) :=
  match e with
  | FromParser Js.InvalidJSON => Some (Some "Invalid JSON format")
  | FromParser Js.TypeError => Some (Some typeErrorMessage)
  | NoResources => Some (Some "No identifiable resources found in this workflow.")
  | FromResolver GeminiService.ApiKeyMissing =>
      Some (Some "API Key is missing in environment variables.")
  | FromResolver GeminiService.ApiError =>
      match apiRejection with
      | Nullish => None
      | WithMessage m => Some m
      end
  end.

(** [msg || "Failed to parse workflow."] *)
Definition errorText (msg : option string) : string :=
  match msg with
  | Some s => if JsString.truthy s then s else "Failed to parse workflow."
  | None => "Failed to parse workflow."
  end.

(** The [catch] block.  When reading [e.message] throws, the block is
    left before any setter is called: the promise of the handler rejects
    and the state stays as it is. *)
Definition caught (e : Thrown) (m : Model) : Model :=
  match message e with
  | Some msg => mkModel ERROR (resources m) (metadata m) (errorText msg)
  | None => m
  end.

(** The state when the promise of [handleFileLoaded] settles, from the
    state [m] at the call. *)
Definition handleFileLoaded (content name : string) (size : nat) (m : Model)
  : Model :=
  let m := mkModel ANALYZING_LOCAL (resources m) (metadata m) (errorMsg m) in
  match ComfyParser.parseWorkflowData scanUUID JSON_parse content with
  | inl e => caught (FromParser e) m
  | inr scannedItems =>
      let m := mkModel (appState m) (resources m)
                       (Some (mkMetadata name size (List.length scannedItems)))
                       (errorMsg m) in
      if (List.length scannedItems =? 0)%nat then caught NoResources m
      else
        let m := mkModel ANALYZING_AI (resources m) (metadata m) (errorMsg m) in
        match GeminiService.analyzeResourcesWithGemini
                resolveUUID API_KEY ai scannedItems with
        | inl e => caught (FromResolver e) m
        | inr enriched => mkModel REVIEW enriched (metadata m) (errorMsg m)
        end
  end.

End Pipeline.

End AppPipeline.

(* ===================================================================== *)
(** ** Notions used to state further properties *)
(* ===================================================================== *)

Module ScanNotions.
Import Js ComfyParser ScanLogic.

(** The strings that the scanner reads as the type of the node record
    [node], under the field [field]: the field's value when the record is
    an object and the value a string. *)
Definition typeOf (field : string) (node : JSON) : list string :=
  match node with
  | JObj p =>
      match assoc field p with
      | Some (JStr t) => [t]
      | _ => []
      end
  | _ => []
  end.

(** The type names of the document [data], as written: the [type] of the
    elements of [data.nodes] when that is an array, the [class_type] of
    the values of [data] otherwise. *)
Definition typeNames (data : JSON) : list string :=
  match data with
  | JObj o =>
      match assoc "nodes" o with
      | Some (JArr ns) => flat_map (typeOf "type") ns
      | _ => flat_map (fun kv => typeOf "class_type" (snd kv)) o
      end
  | _ => flat_map (fun kv => typeOf "class_type" (snd kv)) (forIn data)
  end.

(** [r] is the trimmed form of a type name of [data] that is not empty,
    is not in [CORE_NODES] and does not start with [ComfyUI]. *)
Definition nodeNameOf (data : JSON) (r : string) : Prop :=
  exists t, In t (typeNames data) /\ r = JsString.trim t /\
            JsString.truthy t = true /\
            JsString.mem t CORE_NODES = false /\
            JsString.startsWith t "ComfyUI" = false.

Definition nodesNamed (data : JSON) (st : State) : Prop :=
  Forall (fun kv => isNode (snd kv) = true -> nodeNameOf data (rawName (snd kv)))
         (items st).

(** [keeps k m]: a name filed under [k] stays filed through [m].
    [establishes k m]: when [m] returns, a name is filed under [k]. *)
Definition keeps {A} (k : string) (m : M A) : Prop :=
  spec (fun st => Map_has k (items st) = true) (fun _ => True) m.

Definition establishes {A} (k : string) (m : M A) : Prop :=
  forall st, match m st with
             | inl _ => True
             | inr (_, st') => Map_has k (items st') = true
             end.

(** [fails m]: [m] throws from every state. *)
Definition fails {A} (m : M A) : Prop :=
  forall st, exists e, m st = inl e.

(** A node record on which the scanner throws: [null], or an object
    whose identifier is a truthy value that is not a string. *)
Definition badNode (field : string) (node : JSON) : bool :=
  match node with
  | JNull => true
  | JObj p =>
      match assoc field p with
      | Some (JStr _) => false
      | Some v => truthy (Some v)
      | None => false
      end
  | _ => false
  end.

End ScanNotions.

Module TextNotions.
Import ScriptPreview ScriptPreview.Regex.

(** Every character of [s] passes [P]. *)
Fixpoint allChars (P : ascii -> bool) (s : string) : bool :=
  match s with
  | EmptyString => true
  | String c s' => P c && allChars P s'
  end.

Definition notSlash (c : ascii) : bool := negb (Ascii.eqb c "/").
Definition notTerminator (c : ascii) : bool := negb (lineTerminator c).

(** A non-empty name without a slash: one segment of a path. *)
Definition segment (r : string) : Prop :=
  r <> EmptyString /\ allChars notSlash r = true.

(** [ends r t]: the text [t] ends in a slash, the name [r] and an
    optional [.git]. *)
Definition ends (r t : string) : Prop :=
  exists a e, t = a ++ String "/" (r ++ e) /\ gitEnd e = true /\
              allChars groupChar r = true /\ r <> EmptyString.

Definition notT (c : ascii) : bool := negb (Ascii.eqb c "T").

End TextNotions.

Module ValidationNotions.
Import ScriptPreview.

(** The reasons that [isDirectDownloadUrl] gives. *)
Definition reasons : list string :=
  [ "URL is empty or too short.";
    "This is a search query, not a direct download link.";
    "This is a general page, not a direct download link.";
    "URL does not start with http(s):// or is not a recognized GitHub SSH URL.";
    "Custom Node URL should be a GitHub repository.";
    "Model URL might not be a direct download or recognized hosting platform." ].

Definition invalid (r : EnrichedResource) : bool :=
  negb (isValid (isDirectDownloadUrl (downloadUrl r) (type r))).

End ValidationNotions.

Module MoreExamples.
Import GeminiService AppPipeline Examples.

Definition nullNodeDoc : JSON :=
  JObj [("nodes", JArr [JObj [("type", JStr "FooNode")]; JNull])].

Definition numberTypeDoc : JSON :=
  JObj [("7", JObj [("class_type", JNum (5 # 1)%Q)])].

(** [{"nodes":[{"type":"KSampler"},{"type":"FooNode","widgets_values":["a.ckpt"]}]}] *)
Definition mixedText : string :=
  let q := ScriptPreview.quoted in
  "{" ++ q "nodes" ++ ":[{" ++ q "type" ++ ":" ++ q "KSampler" ++ "},{"
      ++ q "type" ++ ":" ++ q "FooNode" ++ "," ++ q "widgets_values" ++ ":["
      ++ q "a.ckpt" ++ "]}]}".

Definition mixedDoc : JSON :=
  JObj [("nodes",
         JArr [JObj [("type", JStr "KSampler")];
               JObj [("type", JStr "FooNode");
                     ("widgets_values", JArr [JStr "a.ckpt"])]])].

Definition guessA : ExternalGuess :=
  mkGuess "v1-5-pruned.ckpt" "Stable Diffusion 1.5" CHECKPOINT None
          "models/checkpoints"
          "https://huggingface.co/runwayml/v1-5-pruned.ckpt"
          (Some GPU) (Some "4GB").

Definition guessFirst : ExternalGuess :=
  mkGuess "Node0" "Node 0" CUSTOM_NODE None
          "custom_nodes" "https://github.com/foo/node0" (Some CPU) (Some "").

(** Both calls answer, each with a guess for an item of its chunk and a
    guess for a name that no item has. *)
Definition aiBoth (k : nat) (chunk : list ScannedItem) : Outcome :=
  match k with
  | O => Parsed [guessOther; guessFirst]
  | S _ => Parsed [guessLast; guessOther]
  end.

Definition idle : Model := mkModel IDLE [] None EmptyString.

End MoreExamples.

(* ===================================================================== *)
(** ** Properties of the download history *)
(* ===================================================================== *)

Module AppFacts.
Import App Examples.

Lemma truthy_nonempty (s : string) :
  JsString.truthy s = true -> s <> EmptyString.
Proof. destruct s; simpl; [discriminate | intros _ H; discriminate H]. Qed.

Lemma filteredNew_nonempty resources timestamp prev :
  Forall (fun h => h_downloadUrl h <> EmptyString)
         (filteredNew resources timestamp prev).
Proof.
  unfold filteredNew. apply Forall_forall. intros h Hin.
  apply filter_In in Hin. destruct Hin as [_ Hkeep].
  apply andb_true_iff in Hkeep. destruct Hkeep as [Hurl _].
  now apply truthy_nonempty.
Qed.

Lemma applyOp_nonempty h op :
  Forall (fun i => h_downloadUrl i <> EmptyString) h ->
  Forall (fun i => h_downloadUrl i <> EmptyString) (applyOp h op).
Proof.
  intros Hh. destruct op as [rs ts|]; simpl.
  - unfold addToHistory. apply Forall_app. split; [apply filteredNew_nonempty | exact Hh].
  - constructor.
Qed.

Lemma fold_applyOp_nonempty ops : forall h,
  Forall (fun i => h_downloadUrl i <> EmptyString) h ->
  Forall (fun i => h_downloadUrl i <> EmptyString) (fold_left applyOp ops h).
Proof.
  induction ops as [|op ops IH]; intros h Hh; simpl; [exact Hh|].
  apply IH. now apply applyOp_nonempty.
Qed.

(** C2.  Committing [dupA] and [dupB], which share one download URL, to an
    empty history stores two entries for that URL: the filter of
    [addToHistory] compares a new item with the entries stored before the
    commit only, not with the other items of the same commit. *)
Theorem addToHistory_same_url_in_one_commit :
  map h_downloadUrl (addToHistory [dupA; dupB] "2026-01-01T00:00:00.000Z" [])
  = [ "https://civitai.com/api/download/models/1";
      "https://civitai.com/api/download/models/1" ].
Proof. reflexivity. Qed.

(** C10.  After any run of commits and clears from an empty store, every
    stored item has a non-empty download URL; one commit puts in front of
    the previous history exactly the filtered new items, none of which has
    an empty download URL. *)
Theorem history_urls_nonempty :
  (forall ops, Forall (fun h => h_downloadUrl h <> EmptyString) (runOps ops)) /\
  (forall resources timestamp prev,
      addToHistory resources timestamp prev
      = (filteredNew resources timestamp prev ++ prev)%list /\
      Forall (fun h => h_downloadUrl h <> EmptyString)
             (filteredNew resources timestamp prev) /\
      Forall (fun h => In (h_resource h) resources /\
                       downloadUrl (h_resource h) <> EmptyString)
             (filteredNew resources timestamp prev)).
Proof.
  split.
  - intros ops. unfold runOps. apply fold_applyOp_nonempty. constructor.
  - intros rs ts prev. split; [reflexivity|]. split.
    + apply filteredNew_nonempty.
    + apply Forall_forall. intros h Hin.
      pose proof (filteredNew_nonempty rs ts prev) as Hne.
      rewrite Forall_forall in Hne. specialize (Hne h Hin).
      unfold filteredNew in Hin. apply filter_In in Hin.
      destruct Hin as [Hnew _]. unfold newItems in Hnew.
      apply in_map_iff in Hnew. destruct Hnew as [r [Hr Hin]].
      subst h. simpl. split; [exact Hin | exact Hne].
Qed.

End AppFacts.

(* ===================================================================== *)
(** ** Properties of the workflow scanner *)
(* ===================================================================== *)

Module ComfyParserFacts.
Import Js ComfyParser WorkflowShape ScanLogic Examples.

Section Rules.
Context {I : State -> Prop} {E : Exn -> Prop}.

Lemma spec_ret {A} (a : A) : spec I E (ret a).
Proof. intros st H. exact H. Qed.

Lemma spec_bind {A B} (m : M A) (f : A -> M B) :
  spec I E m -> (forall a, spec I E (f a)) -> spec I E (bind m f).
Proof.
  intros Hm Hf st H. unfold bind. specialize (Hm st H).
  destruct (m st) as [e | [a st']]; [exact Hm | now apply Hf].
Qed.

Lemma spec_lift_bind {A B} (t : Throwing A) (f : A -> M B) :
  match t with inl e => E e | inr a => spec I E (f a) end ->
  spec I E (bind (lift t) f).
Proof.
  intros Ht st H. unfold bind, lift.
  destruct t as [e | a]; [exact Ht | now apply Ht].
Qed.

Lemma spec_when (b : bool) (m : M unit) : spec I E m -> spec I E (when b m).
Proof. intros Hm. destruct b; [exact Hm | apply spec_ret]. Qed.

Lemma spec_forEach {A} (f : A -> M unit) (l : list A) :
  Forall (fun a => spec I E (f a)) l -> spec I E (forEach f l).
Proof.
  induction 1 as [| a l Ha _ IH]; simpl.
  - apply spec_ret.
  - apply spec_bind; [exact Ha | intros _; exact IH].
Qed.

Lemma spec_forEach_all {A} (f : A -> M unit) (l : list A) :
  (forall a, spec I E (f a)) -> spec I E (forEach f l).
Proof. intros H. apply spec_forEach, Forall_forall. intros a _. apply H. Qed.

End Rules.

Section Parser.
Variable randomUUID : nat -> string.
Context {I : State -> Prop} {E : Exn -> Prop}.
Hypothesis addItem_spec : forall name isNode, spec I E (addItem randomUUID name isNode).

Lemma processInputs_spec inputs : spec I E (processInputs randomUUID inputs).
Proof.
  unfold processInputs. destruct inputs as [i|]; [|apply spec_ret].
  destruct (negb (truthy (Some i))); [apply spec_ret|].
  apply spec_forEach_all. intros [key v]; simpl.
  destruct v; try apply spec_ret. apply spec_when, addItem_spec.
Qed.

Lemma widgets_spec vals :
  spec I E (forEach (fun val =>
                       match val with
                       | JStr s => when (widgetIsFile s) (addItem randomUUID s false)
                       | _ => ret tt
                       end) vals).
Proof.
  apply spec_forEach_all. intros v.
  destruct v; try apply spec_ret. apply spec_when, addItem_spec.
Qed.

Lemma captureType_spec t :
  E TypeError \/ stringOrAbsent t = true -> spec I E (captureType randomUUID t).
Proof.
  intros Ht. unfold captureType. destruct t as [v|]; [|apply spec_ret].
  destruct (truthy (Some v)); [|apply spec_ret].
  apply spec_lift_bind. destruct v; simpl;
    try (destruct Ht as [Ht | Ht]; [exact Ht | discriminate Ht]).
  apply spec_when, addItem_spec.
Qed.

Lemma savedNode_spec node :
  E TypeError \/ isNodeRecord "type" node = true ->
  spec I E (savedNode randomUUID node).
Proof.
  intros Hn. unfold savedNode.
  destruct node as [ | b | q | s | l | p]; simpl getProp;
    try (apply spec_lift_bind; simpl;
         destruct Hn as [Hn | Hn]; [exact Hn | discriminate Hn]);
    try (apply spec_lift_bind; apply spec_bind;
         [apply captureType_spec; right; reflexivity
         | intros _; apply spec_lift_bind; apply spec_ret]).
  apply spec_lift_bind. apply spec_bind.
  - apply captureType_spec. destruct Hn as [Hn | Hn]; [now left | right; exact Hn].
  - intros _. apply spec_lift_bind.
    destruct (assoc "widgets_values" p) as [w|]; [|apply spec_ret].
    destruct w; try apply spec_ret. apply widgets_spec.
Qed.

Lemma apiNode_spec kv :
  E TypeError \/ isNodeRecord "class_type" (snd kv) = true ->
  spec I E (apiNode randomUUID kv).
Proof.
  intros Hn. unfold apiNode. destruct kv as [key node]. simpl snd in *.
  destruct node as [ | b | q | s | l | p]; simpl getProp;
    try (apply spec_lift_bind; simpl;
         destruct Hn as [Hn | Hn]; [exact Hn | discriminate Hn]);
    try (apply spec_lift_bind; apply spec_bind;
         [apply captureType_spec; right; reflexivity
         | intros _; apply spec_lift_bind; apply spec_when, processInputs_spec]).
  apply spec_lift_bind. apply spec_bind.
  - apply captureType_spec. destruct Hn as [Hn | Hn]; [now left | right; exact Hn].
  - intros _. apply spec_lift_bind. apply spec_when, processInputs_spec.
Qed.

End Parser.

Lemma wellShaped_object_nodes o ns :
  assoc "nodes" o = Some (JArr ns) ->
  wellShaped (JObj o) = true -> forallb (isNodeRecord "type") ns = true.
Proof.
  intros Hn Hw. unfold wellShaped in Hw. apply orb_true_iff in Hw.
  destruct Hw as [Hg | He].
  - simpl in Hg. rewrite Hn in Hg. exact Hg.
  - exfalso. simpl in He. clear - Hn He.
    induction o as [| [k v] o IH]; cbn [assoc forallb snd] in *; [discriminate|].
    apply andb_true_iff in He. destruct He as [Hv Ho].
    destruct (String.eqb "nodes" k).
    + injection Hn as ->. discriminate Hv.
    + now apply IH.
Qed.

Lemma wellShaped_object_api o :
  (forall ns, assoc "nodes" o <> Some (JArr ns)) ->
  wellShaped (JObj o) = true ->
  forallb (fun kv => isNodeRecord "class_type" (snd kv)) o = true.
Proof.
  intros Hn Hw. unfold wellShaped in Hw. apply orb_true_iff in Hw.
  destruct Hw as [Hg | He]; [|exact He].
  exfalso. simpl in Hg. destruct (assoc "nodes" o) as [v|]; [|discriminate].
  destruct v; try discriminate. now apply (Hn elems).
Qed.

Section Body.
Variable randomUUID : nat -> string.
Context {I : State -> Prop} {E : Exn -> Prop}.
Hypothesis addItem_spec : forall name isNode, spec I E (addItem randomUUID name isNode).

Lemma forEach_apiNode_any l :
  E TypeError -> spec I E (forEach (apiNode randomUUID) l).
Proof.
  intros HE. apply spec_forEach_all. intros kv.
  apply apiNode_spec; [exact addItem_spec | now left].
Qed.

Lemma scanBody_spec data :
  E TypeError \/ wellShaped data = true -> spec I E (scanBody randomUUID data).
Proof.
  intros Hd. unfold scanBody.
  destruct data as [ | b | q | s | l | o]; simpl getProp; apply spec_lift_bind;
    try (destruct Hd as [Hd | Hd]; [| discriminate Hd];
         first [exact Hd | now apply forEach_apiNode_any]).
  destruct (assoc "nodes" o) as [v|] eqn:Hn.
  - destruct v as [ | b | q | s | ns | p];
      try (apply spec_forEach, Forall_forall; intros kv Hin;
           apply apiNode_spec; [exact addItem_spec|];
           destruct Hd as [Hd | Hd]; [now left | right];
           assert (Hall : forallb (fun kv => isNodeRecord "class_type" (snd kv)) o = true)
             by (apply wellShaped_object_api; [intros ns; rewrite Hn; discriminate | exact Hd]);
           rewrite forallb_forall in Hall; now apply Hall).
    apply spec_forEach, Forall_forall. intros node Hin.
    apply savedNode_spec; [exact addItem_spec|].
    destruct Hd as [Hd | Hd]; [now left | right].
    pose proof (wellShaped_object_nodes o ns Hn Hd) as Hall.
    rewrite forallb_forall in Hall. now apply Hall.
  - apply spec_forEach, Forall_forall. intros kv Hin.
    apply apiNode_spec; [exact addItem_spec|].
    destruct Hd as [Hd | Hd]; [now left | right].
    assert (Hall : forallb (fun kv => isNodeRecord "class_type" (snd kv)) o = true)
      by (apply wellShaped_object_api; [intros ns; rewrite Hn; discriminate | exact Hd]).
    rewrite forallb_forall in Hall. now apply Hall.
Qed.

End Body.

(** *** Trimming *)

Lemma trimStartL_head l : headNotWhite (JsString.trimStartL l).
Proof.
  induction l as [| c l IH]; simpl; [exact I|].
  destruct (JsString.isWhite c) eqn:Hc; [exact IH | simpl; exact Hc].
Qed.

Lemma trimStartL_fixed l : headNotWhite l -> JsString.trimStartL l = l.
Proof. destruct l as [| c l]; simpl; [reflexivity | intros ->; reflexivity]. Qed.

Lemma trimStartL_suffix l : exists w, l = (w ++ JsString.trimStartL l)%list.
Proof.
  induction l as [| c l [w IH]]; simpl.
  - now exists [].
  - destruct (JsString.isWhite c).
    + exists (c :: w). simpl. now f_equal.
    + now exists [].
Qed.

Lemma trim_idempotent s : JsString.trim (JsString.trim s) = JsString.trim s.
Proof.
  unfold JsString.trim. rewrite list_ascii_of_string_of_list_ascii.
  set (A := JsString.trimStartL (list_ascii_of_string s)).
  set (B := JsString.trimStartL (rev A)).
  assert (HA : headNotWhite A) by apply trimStartL_head.
  assert (HB : headNotWhite B) by apply trimStartL_head.
  assert (HR : headNotWhite (rev B)).
  { destruct (trimStartL_suffix (rev A)) as [w Hw]. fold B in Hw.
    assert (HAeq : A = (rev B ++ rev w)%list)
      by (rewrite <- rev_app_distr, <- Hw, rev_involutive; reflexivity).
    destruct (rev B) as [| c r]; [exact I|].
    rewrite HAeq in HA. exact HA. }
  rewrite (trimStartL_fixed (rev B) HR), rev_involutive.
  now rewrite (trimStartL_fixed B HB).
Qed.

(** *** The map of scanned items *)

Lemma Map_has_false k m : Map_has k m = false -> ~ In k (map fst m).
Proof.
  unfold Map_has. induction m as [| [k' v] m IH]; simpl; [tauto|].
  intros H. apply orb_false_iff in H. destruct H as [Hk Hm].
  intros [Heq | Hin]; [| now apply IH].
  subst k'. now rewrite String.eqb_refl in Hk.
Qed.

Lemma Map_set_absent k v m : Map_has k m = false -> Map_set k v m = (m ++ [(k, v)])%list.
Proof.
  unfold Map_has. induction m as [| [k' v'] m IH]; simpl; [reflexivity|].
  intros H. apply orb_false_iff in H. destruct H as [Hk Hm].
  rewrite Hk. f_equal. now apply IH.
Qed.

Lemma addItem_wf randomUUID E name isNode :
  spec wf E (addItem randomUUID name isNode).
Proof.
  intros st [Hnd Hk]. unfold addItem.
  destruct (negb (JsString.truthy name)); [now split|].
  destruct (Map_has (JsString.trim name) (items st)) eqn:Hhas; simpl; [now split|].
  rewrite (Map_set_absent _ _ _ Hhas). split; simpl.
  - rewrite map_app. simpl.
    apply (NoDup_Add (a := JsString.trim name) (l := map fst (items st))).
    + rewrite <- (app_nil_r (map fst (items st))) at 1. apply Add_app.
    + split; [exact Hnd | now apply Map_has_false].
  - apply Forall_app. split; [exact Hk|].
    constructor; [| constructor]. simpl. split; [reflexivity | apply trim_idempotent].
Qed.

Lemma addItem_total randomUUID name isNode :
  spec (fun _ => True) (fun _ => False) (addItem randomUUID name isNode).
Proof.
  intros st _. unfold addItem.
  destruct (negb (JsString.truthy name)); [exact I|].
  destruct (negb (Map_has (JsString.trim name) (items st))); exact I.
Qed.

Lemma map_rawName_values m :
  Forall (fun kv => rawName (snd kv) = fst kv /\
                    JsString.trim (fst kv) = fst kv) m ->
  map rawName (Map_values m) = map fst m.
Proof.
  unfold Map_values. induction 1 as [| kv m [Hkv _] _ IH]; simpl; [reflexivity|].
  now rewrite Hkv, IH.
Qed.

(** What [scanData] returns, for every parsed value: distinct trimmed
    names, and no exception other than a [TypeError]. *)
Lemma scanData_cases randomUUID data :
  match scanData randomUUID data with
  | inl e => e = TypeError
  | inr its => NoDup (map rawName its) /\
               Forall (fun it => JsString.trim (rawName it) = rawName it) its
  end.
Proof.
  unfold scanData.
  pose proof (scanBody_spec randomUUID
                (I := wf) (E := fun e => e = TypeError)
                (fun name isNode => addItem_wf randomUUID _ name isNode)
                data (or_introl eq_refl) (mkState [] 0)) as H.
  assert (H0 : wf (mkState [] 0)) by (split; simpl; constructor).
  specialize (H H0).
  destruct (scanBody randomUUID data (mkState [] 0)) as [e | [u st]]; [exact H|].
  destruct H as [Hnd Hk]. split.
  - now rewrite (map_rawName_values _ Hk).
  - unfold Map_values. rewrite Forall_map.
    eapply Forall_impl; [| exact Hk]. intros kv [Hr Ht]. simpl.
    now rewrite Hr.
Qed.

Lemma scanData_shaped randomUUID data :
  wellShaped data = true -> exists its, scanData randomUUID data = inr its.
Proof.
  intros Hw. unfold scanData.
  pose proof (scanBody_spec randomUUID
                (I := fun _ => True) (E := fun _ => False)
                (addItem_total randomUUID) data (or_intror Hw)
                (mkState [] 0) I) as H.
  destruct (scanBody randomUUID data (mkState [] 0)) as [e | [u st]]; [destruct H|].
  now eexists.
Qed.

(** *** The scanner on documents *)

(** C5.  In a graph-form document the widget values [model.pt] and
    [model.pth] are not extracted: the loop over [widgets_values] tests
    the endings [.safetensors] and [.ckpt] only, whereas [processInputs]
    tests all four endings and does extract [model.pt] from an
    execution-form document. *)
Theorem widgets_values_pt_not_extracted :
  scanData uuidOf docWidgetPt = inr [] /\
  scanData uuidOf docWidgetPth = inr [] /\
  scanData uuidOf docInputPt = inr [mkScanned "uuid-0" "model.pt" false].
Proof. repeat split; reflexivity. Qed.

(** C6.  [parseWorkflowData] throws the parse error exactly when
    [JSON.parse] fails, and then returns nothing; on a parsed document of
    graph form or of execution form it returns a list of items. *)
Theorem parseWorkflowData_parse_error randomUUID JSON_parse jsonString :
  (JSON_parse jsonString = None <->
   parseWorkflowData randomUUID JSON_parse jsonString = inl InvalidJSON) /\
  (forall data,
      JSON_parse jsonString = Some data ->
      wellShaped data = true ->
      exists its, parseWorkflowData randomUUID JSON_parse jsonString = inr its).
Proof.
  unfold parseWorkflowData. split; [split|].
  - intros ->. reflexivity.
  - destruct (JSON_parse jsonString) as [data|]; [|reflexivity].
    intros H. pose proof (scanData_cases randomUUID data) as Hc.
    rewrite H in Hc. discriminate Hc.
  - intros data -> Hw. now apply scanData_shaped.
Qed.

(** C7.  The items returned for any document have pairwise distinct,
    trimmed names; [addItem] compares the trimmed name with the names
    kept so far, leaves the state as it is when the name is there already,
    and appends a new item under the trimmed name otherwise. *)
Theorem scan_rawNames_distinct randomUUID JSON_parse jsonString its :
  parseWorkflowData randomUUID JSON_parse jsonString = inr its ->
  NoDup (map rawName its) /\
  Forall (fun it => JsString.trim (rawName it) = rawName it) its /\
  (forall name isNode st,
      Map_has (JsString.trim name) (items st) = true ->
      addItem randomUUID name isNode st = inr (tt, st)) /\
  (forall name isNode st,
      JsString.truthy name = true ->
      Map_has (JsString.trim name) (items st) = false ->
      addItem randomUUID name isNode st
      = inr (tt, mkState (items st ++
                          [(JsString.trim name,
                            mkScanned (randomUUID (drawn st))
                                      (JsString.trim name) isNode)])%list
                         (S (drawn st)))).
Proof.
  intros H. unfold parseWorkflowData in H.
  destruct (JSON_parse jsonString) as [data|]; [|discriminate H].
  pose proof (scanData_cases randomUUID data) as Hc. rewrite H in Hc.
  destruct Hc as [Hnd Htrim]. repeat split; try assumption.
  - intros name isNode st Hhas. unfold addItem. rewrite Hhas.
    now destruct (negb (JsString.truthy name)).
  - intros name isNode st Hname Hhas. unfold addItem.
    rewrite Hname, Hhas. simpl. now rewrite (Map_set_absent _ _ _ Hhas).
Qed.

Lemma parseWorkflowData_parse_error_witness :
  parseWorkflowData uuidOf (parseOnly scenarioText scenarioDoc) "{" = inl InvalidJSON /\
  wellShaped scenarioDoc = true /\
  exists its,
    parseWorkflowData uuidOf (parseOnly scenarioText scenarioDoc) scenarioText
    = inr its.
Proof.
  split; [| split; [reflexivity|]].
  - apply (proj1 (parseWorkflowData_parse_error
                    uuidOf (parseOnly scenarioText scenarioDoc) "{")).
    reflexivity.
  - apply (proj2 (parseWorkflowData_parse_error
                    uuidOf (parseOnly scenarioText scenarioDoc) scenarioText)
                 scenarioDoc); reflexivity.
Defined.

Lemma scan_rawNames_distinct_witness :
  parseWorkflowData uuidOf (parseOnly spacedText spacedDoc) spacedText
  = inr [mkScanned "uuid-0" "FooNode" true; mkScanned "uuid-1" "a.ckpt" false] /\
  NoDup (map rawName
             [mkScanned "uuid-0" "FooNode" true; mkScanned "uuid-1" "a.ckpt" false]).
Proof.
  split; [reflexivity|].
  apply (scan_rawNames_distinct uuidOf (parseOnly spacedText spacedDoc) spacedText).
  reflexivity.
Defined.

End ComfyParserFacts.

(* ===================================================================== *)
(** ** Properties of the resource resolver *)
(* ===================================================================== *)

Module GeminiServiceFacts.
Import GeminiService ResolverLogic Examples MoreExamples.

Section Facts.
Variable randomUUID : nat -> string.
Variable ai : nat -> list ScannedItem -> Outcome.

Lemma merge_mergedFrom chunk res n :
  mergedFrom randomUUID chunk res (fst (merge randomUUID chunk res n)).
Proof.
  unfold merge, mergedFrom.
  destruct (findOriginal chunk res) as [o|] eqn:Hfind; simpl;
    repeat (split; [reflexivity|]).
  - unfold findOriginal in Hfind. apply find_some in Hfind.
    destruct Hfind as [Hin Heq]. apply String.eqb_eq in Heq.
    repeat split; auto.
  - repeat split; [| now exists n].
    intros c Hin Heq. unfold findOriginal in Hfind.
    pose proof (find_none _ _ Hfind c Hin) as Hne. simpl in Hne.
    rewrite Heq, String.eqb_refl in Hne. discriminate Hne.
Qed.

Lemma mergedChunk_Forall2 chunk gs : forall n,
  Forall2 (mergedFrom randomUUID chunk) gs
          (fst (mergedChunk randomUUID chunk gs n)).
Proof.
  induction gs as [| res gs IH]; intros n; simpl; [constructor|].
  pose proof (merge_mergedFrom chunk res n) as Hm.
  destruct (merge randomUUID chunk res n) as [r n1].
  specialize (IH n1).
  destruct (mergedChunk randomUUID chunk gs n1) as [rs n2].
  simpl in *. now constructor.
Qed.

(** The accumulator of the loop and the chunk-by-chunk contributions. *)
Lemma resolveLoop_concat chunks : forall k acc n,
  (forall j chunk, nth_error chunks j = Some chunk -> ai (k + j) chunk <> Rejected) ->
  resolveLoop randomUUID ai k chunks acc n
  = inr (acc ++ List.concat (contributions randomUUID ai k chunks n))%list.
Proof.
  induction chunks as [| chunk rest IH]; intros k acc n Hok; simpl.
  - now rewrite app_nil_r.
  - assert (Hrest : forall n', resolveLoop randomUUID ai (S k) rest acc n'
                               = inr (acc ++ List.concat (contributions randomUUID ai (S k) rest n'))%list).
    { intros n'. apply IH. intros j c Hj.
      replace (S k + j) with (k + S j) by lia. now apply Hok. }
    pose proof (Hok 0 chunk eq_refl) as H0. rewrite Nat.add_0_r in H0.
    destruct (ai k chunk) as [ | | | gs]; [congruence | apply Hrest | apply Hrest |].
    destruct (mergedChunk randomUUID chunk gs n) as [merged n'].
    simpl. rewrite app_assoc. apply IH. intros j c Hj.
    replace (S k + j) with (k + S j) by lia. now apply Hok.
Qed.

Lemma resolveLoop_rejected chunks : forall k acc n j chunk,
  nth_error chunks j = Some chunk -> ai (k + j) chunk = Rejected ->
  resolveLoop randomUUID ai k chunks acc n = inl ApiError.
Proof.
  induction chunks as [| c rest IH]; intros k acc n j chunk Hj Hrej.
  - destruct j; discriminate Hj.
  - simpl. destruct j as [| j].
    + simpl in Hj. injection Hj as ->. rewrite Nat.add_0_r in Hrej.
      now rewrite Hrej.
    + simpl in Hj. replace (k + S j) with (S k + j) in Hrej by lia.
      destruct (ai k c) as [ | | | gs]; try reflexivity;
        try (eapply IH; eassumption).
      destruct (mergedChunk randomUUID c gs n) as [merged n'].
      eapply IH; eassumption.
Qed.

Lemma contributions_length chunks : forall k n,
  List.length (contributions randomUUID ai k chunks n) = List.length chunks.
Proof.
  induction chunks as [| c rest IH]; intros k n; simpl; [reflexivity|].
  destruct (ai k c) as [ | | | gs]; simpl; try now rewrite IH.
  destruct (mergedChunk randomUUID c gs n) as [merged n']. simpl. now rewrite IH.
Qed.

(** The [j]-th contribution, by the outcome of the [j]-th call. *)
Lemma contributions_nth chunks : forall k n j chunk,
  nth_error chunks j = Some chunk ->
  exists m, nth_error (contributions randomUUID ai k chunks n) j = Some m /\
            match ai (k + j) chunk with
            | Parsed gs => Forall2 (mergedFrom randomUUID chunk) gs m
            | _ => m = []
            end.
Proof.
  induction chunks as [| c rest IH]; intros k n j chunk Hj.
  - destruct j; discriminate Hj.
  - simpl. destruct j as [| j]; simpl in Hj.
    + injection Hj as ->. rewrite Nat.add_0_r.
      destruct (ai k chunk) as [ | | | gs] eqn:Hai;
        try (eexists; split; [reflexivity | reflexivity]).
      pose proof (mergedChunk_Forall2 chunk gs n) as HF.
      destruct (mergedChunk randomUUID chunk gs n) as [merged n'].
      eexists. split; [reflexivity | exact HF].
    + replace (k + S j) with (S k + j) by lia.
      destruct (ai k c) as [ | | | gs]; simpl; try (now apply IH).
      destruct (mergedChunk randomUUID c gs n) as [merged n']. simpl. now apply IH.
Qed.

(** [chunk.find] returns the first item with the name, if any. *)
Lemma findOriginal_first chunk res :
  match findOriginal chunk res with
  | Some o => firstNamed chunk (g_rawName res) o /\
              named chunk (g_rawName res) = true
  | None => (forall c, In c chunk -> rawName c <> g_rawName res) /\
            named chunk (g_rawName res) = false
  end.
Proof.
  unfold findOriginal, named.
  induction chunk as [| c chunk IH]; cbn [find existsb].
  - split; [intros c [] | reflexivity].
  - destruct (String.eqb (rawName c) (g_rawName res)) eqn:Hc.
    + apply String.eqb_eq in Hc. split; [|reflexivity].
      exists [], chunk. split; [reflexivity|]. split; [exact Hc | intros c' []].
    + apply String.eqb_neq in Hc. cbn [orb].
      destruct (find (fun c0 => String.eqb (rawName c0) (g_rawName res)) chunk)
        as [o|].
      * destruct IH as [[before [after [-> [Ho Hb]]]] Hn]. split; [|exact Hn].
        exists (c :: before), after. split; [reflexivity|]. split; [exact Ho|].
        intros c' [<- | Hin]; [exact Hc | now apply Hb].
      * destruct IH as [Hall Hn]. split; [|exact Hn].
        intros c' [<- | Hin]; [exact Hc | now apply Hall].
Qed.

Lemma merge_copies chunk res n : copies res (fst (merge randomUUID chunk res n)).
Proof.
  unfold merge, copies.
  destruct (findOriginal chunk res) as [o|]; cbn [fst r_rawName name type
    description targetPath downloadUrl confidence computeType fileSize];
    repeat (split; [reflexivity|]).
  all: split;
    [ unfold computeTypeOf; destruct (g_computeType res); [reflexivity|];
      now destruct (g_type res)
    | unfold fileSizeOf; destruct (g_fileSize res) as [[| c s]|]; reflexivity ].
Qed.

Lemma merge_follows chunk res n :
  follows randomUUID n chunk res (fst (merge randomUUID chunk res n)) /\
  snd (merge randomUUID chunk res n)
  = if named chunk (g_rawName res) then n else S n.
Proof.
  pose proof (merge_copies chunk res n) as Hc.
  pose proof (findOriginal_first chunk res) as Hf.
  unfold follows. unfold merge in *.
  destruct (findOriginal chunk res) as [o|]; cbn [fst snd r_id r_isNode] in *.
  - destruct Hf as [Hfirst ->]. split; [|reflexivity].
    split; [exact Hc|]. left. now exists o.
  - destruct Hf as [Hall ->]. split; [|reflexivity].
    split; [exact Hc|]. right. auto.
Qed.

Lemma mergedChunk_followsAll chunk gs : forall n rest out,
  followsAll randomUUID (snd (mergedChunk randomUUID chunk gs n)) rest out ->
  followsAll randomUUID n (map (pair chunk) gs ++ rest)%list
             (fst (mergedChunk randomUUID chunk gs n) ++ out)%list.
Proof.
  induction gs as [| res gs IH]; intros n rest out H; [exact H|].
  cbn [mergedChunk] in *.
  destruct (merge_follows chunk res n) as [Hf Hn].
  destruct (merge randomUUID chunk res n) as [r n1]. cbn [fst snd] in Hf, Hn.
  specialize (IH n1 rest out).
  destruct (mergedChunk randomUUID chunk gs n1) as [rs n2]. cbn [fst snd] in *.
  cbn [map app followsAll]. split; [exact Hf|]. rewrite <- Hn. now apply IH.
Qed.

Lemma contributions_followsAll chunks : forall k n,
  followsAll randomUUID n (guessesOf ai k chunks)
             (List.concat (contributions randomUUID ai k chunks n)).
Proof.
  induction chunks as [| chunk rest IH]; intros k n; [exact Logic.I|].
  cbn [guessesOf contributions].
  destruct (ai k chunk) as [ | | | gs]; try (cbn [List.concat app]; apply IH).
  pose proof (mergedChunk_followsAll chunk gs n) as Hm.
  destruct (mergedChunk randomUUID chunk gs n) as [merged n'].
  cbn [fst snd] in Hm. cbn [List.concat]. apply Hm, IH.
Qed.

Lemma guessesOf_In chunks : forall k chunk res,
  In (chunk, res) (guessesOf ai k chunks) <->
  exists j gs, nth_error chunks j = Some chunk /\
               ai (k + j) chunk = Parsed gs /\ In res gs.
Proof.
  induction chunks as [| c rest IH]; intros k chunk res; cbn [guessesOf].
  - split; [intros [] | intros [j [gs [Hj _]]]; destruct j; discriminate Hj].
  - rewrite in_app_iff, IH. split.
    + intros [Hin | [j [gs [Hj [Hai Hres]]]]].
      * destruct (ai k c) as [ | | | gs] eqn:Hai; try (now destruct Hin).
        apply in_map_iff in Hin. destruct Hin as [g [Heq Hg]].
        injection Heq as <- <-. exists 0, gs.
        rewrite Nat.add_0_r. auto.
      * exists (S j), gs. replace (k + S j) with (S k + j) by lia. auto.
    + intros [[| j] [gs [Hj [Hai Hres]]]]; cbn [nth_error] in Hj.
      * injection Hj as ->. rewrite Nat.add_0_r in Hai. rewrite Hai.
        left. now apply in_map.
      * right. exists j, gs. replace (S k + j) with (k + S j) by lia. auto.
Qed.

End Facts.

Lemma followsAll_In randomUUID answered : forall d out r,
  followsAll randomUUID d answered out -> In r out ->
  exists chunk res d', In (chunk, res) answered /\
                       follows randomUUID d' chunk res r.
Proof.
  induction answered as [| [chunk res] answered IH]; intros d out r H Hin.
  - destruct out; [destruct Hin | destruct H].
  - destruct out as [| r0 out]; [destruct H|]. cbn [followsAll] in H.
    destruct H as [Hf Hrest]. destruct Hin as [<- | Hin].
    + exists chunk, res, d. split; [now left | exact Hf].
    + destruct (IH _ _ _ Hrest Hin) as [chunk' [res' [d' [Hin' Hf']]]].
      exists chunk', res', d'. split; [now right | exact Hf'].
Qed.

(** The chunks are the items, cut in order. *)
Lemma chunksFrom_concat fuel : forall items,
  List.length items <= fuel -> List.concat (chunksFrom fuel items) = items.
Proof.
  induction fuel as [| fuel IH]; intros items Hlen.
  - destruct items; [reflexivity | simpl in Hlen; lia].
  - destruct items as [| it items]; [reflexivity|].
    cbn [chunksFrom List.concat]. rewrite IH.
    + apply firstn_skipn.
    + rewrite length_skipn. unfold BATCH_SIZE. simpl in *. lia.
Qed.

Lemma chunksOf_concat items : List.concat (chunksOf items) = items.
Proof. apply chunksFrom_concat. apply Nat.le_refl. Qed.

(** *** The resolver on the outcomes of its calls *)

(** C1, as stated, fails: the response to the one item [itemA] holds one
    guess, for another name.  The output then has one resource, for the
    guess, under a drawn identifier, and none with the identity of
    [itemA]. *)
Lemma resolve_unmatched_item_dropped :
  analyzeResourcesWithGemini uuidOf "key" (fun _ _ => Parsed [guessOther]) [itemA]
  = inr [mkEnriched "uuid-0" "sd15.ckpt" false "Stable Diffusion 1.5" CHECKPOINT
                    None "models/checkpoints" "https://huggingface.co/sd15.ckpt"
                    (9 # 10)%Q GPU "4GB"] /\
  (forall out,
      analyzeResourcesWithGemini uuidOf "key" (fun _ _ => Parsed [guessOther]) [itemA]
      = inr out ->
      ~ exists r, In r out /\ r_id r = id itemA /\ r_rawName r = rawName itemA /\
                  r_isNode r = isNode itemA).
Proof.
  split; [reflexivity|].
  intros out H. vm_compute in H. injection H as <-.
  intros [r [[<- | []] [Hid _]]]. discriminate Hid.
Qed.

(** C1, amended.  With an API key and no rejected call the resolver
    returns, and its output follows the guesses, not the items.  The
    guesses of the parsed responses, taken chunk after chunk and in
    response order ([guessesOf]: exactly the guesses of the responses that
    parse), are matched one to one and in order by the resources of the
    output.  Each resource takes its [rawName] and every field that is not
    part of the identity from its guess, with the defaults and the constant
    confidence.  When an item of the guess's chunk has the guess's
    [rawName], [id] and [isNode] are those of the first such item; when
    none has, [isNode] is false and the [id] is the next identifier drawn,
    the draws being numbered along the output.  An item whose [rawName] no
    guess of a parsed response bears has no resource under its name. *)
Theorem resolve_follows_guesses randomUUID API_KEY ai items :
  JsString.truthy API_KEY = true ->
  (forall j chunk, nth_error (chunksOf items) j = Some chunk ->
                   ai j chunk <> Rejected) ->
  exists out,
    analyzeResourcesWithGemini randomUUID API_KEY ai items = inr out /\
    followsAll randomUUID 0 (guessesOf ai 0 (chunksOf items)) out /\
    (forall chunk res,
        In (chunk, res) (guessesOf ai 0 (chunksOf items)) <->
        exists j gs, nth_error (chunksOf items) j = Some chunk /\
                     ai j chunk = Parsed gs /\ In res gs) /\
    (forall it,
        In it items ->
        (forall j chunk gs res,
            nth_error (chunksOf items) j = Some chunk ->
            ai j chunk = Parsed gs -> In res gs ->
            g_rawName res <> rawName it) ->
        forall r, In r out -> r_rawName r <> rawName it).
Proof.
  intros Hkey Hok.
  exists (List.concat (contributions randomUUID ai 0 (chunksOf items) 0)).
  pose proof (contributions_followsAll randomUUID ai (chunksOf items) 0 0) as Hall.
  split; [|split; [exact Hall | split]].
  - unfold analyzeResourcesWithGemini. rewrite Hkey. cbn [negb].
    now rewrite (resolveLoop_concat randomUUID ai _ 0 [] 0 Hok).
  - intros chunk res. apply (guessesOf_In ai (chunksOf items) 0).
  - intros it _ Hno r Hr Heq.
    destruct (followsAll_In _ _ _ _ _ Hall Hr) as [chunk [res [d [Hin [Hc _]]]]].
    apply (guessesOf_In ai (chunksOf items) 0) in Hin.
    destruct Hin as [j [gs [Hj [Hai Hres]]]].
    apply (Hno j chunk gs res Hj Hai Hres).
    destruct Hc as [Hname _]. congruence.
Qed.

Lemma resolve_follows_guesses_witness :
  JsString.truthy "key" = true /\
  exists out,
    analyzeResourcesWithGemini uuidOf "key" aiBoth manyItems = inr out /\
    followsAll uuidOf 0 (guessesOf aiBoth 0 (chunksOf manyItems)) out /\
    map r_id out = ["uuid-0"; "id-0"; "id-20"; "uuid-1"].
Proof.
  split; [reflexivity|].
  destruct (resolve_follows_guesses uuidOf "key" aiBoth manyItems eq_refl)
    as [out [Hout [Hall _]]].
  - intros [| j] chunk _; discriminate.
  - exists out. split; [exact Hout|]. split; [exact Hall|].
    vm_compute in Hout. injection Hout as <-. reflexivity.
Defined.

(** C3, as stated, fails: with two chunks, a rejected first call ends the
    whole resolution, although the second call would have answered. *)
Lemma resolve_rejected_call_aborts :
  analyzeResourcesWithGemini uuidOf "key" aiRejectsFirst manyItems = inl ApiError /\
  List.length (chunksOf manyItems) = 2 /\
  (forall chunk, aiRejectsFirst 1 chunk = Parsed [guessLast]).
Proof. repeat split; reflexivity. Qed.

(** C3, amended.  With an API key, the chunks are the items cut in order;
    if some call is rejected the resolution throws and returns nothing;
    otherwise it returns the concatenation, in chunk order, of one
    contribution per chunk: the merged guesses of a chunk whose response
    parses, nothing for a chunk whose response is empty or unparsable. *)
Theorem resolve_batches_in_order randomUUID API_KEY ai items :
  JsString.truthy API_KEY = true ->
  List.concat (chunksOf items) = items /\
  ((exists j chunk, nth_error (chunksOf items) j = Some chunk /\
                    ai j chunk = Rejected) ->
   analyzeResourcesWithGemini randomUUID API_KEY ai items = inl ApiError) /\
  ((forall j chunk, nth_error (chunksOf items) j = Some chunk ->
                    ai j chunk <> Rejected) ->
   exists per,
     analyzeResourcesWithGemini randomUUID API_KEY ai items = inr (List.concat per) /\
     List.length per = List.length (chunksOf items) /\
     forall j chunk,
       nth_error (chunksOf items) j = Some chunk ->
       exists m, nth_error per j = Some m /\
                 match ai j chunk with
                 | Parsed gs => Forall2 (mergedFrom randomUUID chunk) gs m
                 | _ => m = []
                 end).
Proof.
  intros Hkey. unfold analyzeResourcesWithGemini. rewrite Hkey. simpl negb. cbv iota.
  split; [apply chunksOf_concat|]. split.
  - intros [j [chunk [Hj Hrej]]].
    now apply (resolveLoop_rejected randomUUID ai _ 0 [] 0 j chunk Hj).
  - intros Hok.
    exists (contributions randomUUID ai 0 (chunksOf items) 0). split; [|split].
    + now rewrite (resolveLoop_concat randomUUID ai _ 0 [] 0 Hok).
    + apply contributions_length.
    + intros j chunk Hj.
      apply (contributions_nth randomUUID ai _ 0 0 j chunk Hj).
Qed.

Lemma resolve_batches_in_order_witness :
  JsString.truthy "key" = true /\
  (forall j chunk, nth_error (chunksOf manyItems) j = Some chunk ->
                   aiGarblesFirst j chunk <> Rejected) /\
  exists per,
    analyzeResourcesWithGemini uuidOf "key" aiGarblesFirst manyItems
    = inr (List.concat per) /\
    List.length per = 2.
Proof.
  assert (Hok : forall j chunk, nth_error (chunksOf manyItems) j = Some chunk ->
                                aiGarblesFirst j chunk <> Rejected)
    by (intros [| j] chunk _; discriminate).
  split; [reflexivity|]. split; [exact Hok|].
  destruct (resolve_batches_in_order uuidOf "key" aiGarblesFirst manyItems eq_refl)
    as [_ [_ H]].
  destruct (H Hok) as [per [Hout [Hlen _]]].
  exists per. split; [exact Hout | exact Hlen].
Defined.

End GeminiServiceFacts.

(* ===================================================================== *)
(** ** Properties of validation and of the script synthesizer *)
(* ===================================================================== *)

Module ScriptPreviewFacts.
Import ScriptPreview ScriptBlocks Examples.

Lemma append_assoc (a b c : string) : (a ++ b) ++ c = a ++ (b ++ c).
Proof. induction a as [| x a IH]; simpl; [reflexivity | now rewrite IH]. Qed.

Lemma append_nil_r (a : string) : a ++ EmptyString = a.
Proof. induction a as [| x a IH]; simpl; [reflexivity | now rewrite IH]. Qed.

Section Structure.
Variable URL_pathname : string -> option string.

Lemma bashResource_append script r :
  bashResource URL_pathname script r
  = script ++ bashResource URL_pathname EmptyString r.
Proof.
  unfold bashResource.
  destruct (negb (JsString.truthy (downloadUrl r))).
  - now rewrite append_nil_r.
  - destruct (ResourceType_eqb (type r) CUSTOM_NODE); cbv zeta;
      rewrite !append_assoc; reflexivity.
Qed.

Lemma batResource_append script r :
  batResource URL_pathname script r
  = script ++ batResource URL_pathname EmptyString r.
Proof.
  unfold batResource.
  destruct (negb (JsString.truthy (downloadUrl r))).
  - now rewrite append_nil_r.
  - destruct (ResourceType_eqb (type r) CUSTOM_NODE); cbv zeta;
      rewrite !append_assoc; reflexivity.
Qed.

Lemma perResource_append format script r :
  perResource URL_pathname format script r
  = script ++ block URL_pathname format r.
Proof.
  unfold block. destruct format; simpl;
    [apply bashResource_append | apply batResource_append].
Qed.

Lemma block_without_url format r :
  hasUrl r = false -> block URL_pathname format r = EmptyString.
Proof.
  unfold hasUrl, block. intros H.
  destruct format; simpl; unfold bashResource, batResource; now rewrite H.
Qed.

Lemma fold_perResource format resources : forall script,
  fold_left (perResource URL_pathname format) resources script
  = script ++ concatAll (blocks URL_pathname format resources).
Proof.
  unfold blocks.
  induction resources as [| r rs IH]; intros script; simpl.
  - now rewrite append_nil_r.
  - rewrite IH, perResource_append, append_assoc. f_equal.
    destruct (hasUrl r) eqn:Hr; simpl; [reflexivity|].
    now rewrite (block_without_url format r Hr).
Qed.

Lemma blocks_Permutation format rs rs' :
  Permutation rs rs' ->
  Permutation (blocks URL_pathname format rs) (blocks URL_pathname format rs').
Proof.
  intros H. unfold blocks. apply Permutation_map.
  induction H as [| x l l' _ IH | x y l | l l' l'' _ IH1 _ IH2]; simpl.
  - constructor.
  - destruct (hasUrl x); [now constructor | exact IH].
  - destruct (hasUrl x), (hasUrl y); try apply Permutation_refl. constructor.
  - now transitivity (filter hasUrl l').
Qed.

End Structure.

(** *** The emitted text *)

(** C4.  For the custom node [nodeBar] the POSIX block is not well formed:
    the inner conditional of the submodule step is closed by a brace where
    the two other steps, and the script everywhere else, write [fi]; the
    block opens nine conditionals and closes eight.  The batch block of the
    same resource closes every group it opens, and so does the POSIX block
    of a model. *)
Theorem bash_submodule_step_unclosed :
  ShellSyntax.ifsClosed (block noURL bash nodeBar) = false /\
  ShellSyntax.ifDepth (ShellSyntax.lines (block noURL bash nodeBar)) 0 = Some 1 /\
  List.length (filter ShellSyntax.opensIf
                      (ShellSyntax.lines (block noURL bash nodeBar))) = 9 /\
  List.length (filter ShellSyntax.closesIf
                      (ShellSyntax.lines (block noURL bash nodeBar))) = 8 /\
  In "    }" (ShellSyntax.lines (block noURL bash nodeBar)) /\
  ShellSyntax.groupsClosed (block noURL bat nodeBar) = true /\
  ShellSyntax.ifsClosed (block noURL bash modelSd) = true.
Proof. vm_compute. repeat split; try reflexivity. tauto. Qed.

(** C8.  The script is the header, which depends on the format and the
    date only, then the blocks of the resources that have a download URL,
    in the order of the input, each block depending on its resource and
    the format only, then the trailer of the format.  So two scripts of the
    same resources differ in the header's date at most, and a permutation
    of the resources permutes the blocks. *)
Theorem generateScript_structure URL_pathname format now resources :
  generateScript URL_pathname format now resources
  = header format (hd EmptyString (JsString.split "T" now))
    ++ concatAll (blocks URL_pathname format resources)
    ++ trailer format /\
  blocks URL_pathname format resources
  = map (fun r => perResource URL_pathname format EmptyString r)
        (filter (fun r => JsString.truthy (downloadUrl r)) resources) /\
  (forall now',
      exists body,
        generateScript URL_pathname format now resources
        = header format (hd EmptyString (JsString.split "T" now)) ++ body /\
        generateScript URL_pathname format now' resources
        = header format (hd EmptyString (JsString.split "T" now')) ++ body) /\
  (forall resources',
      Permutation resources resources' ->
      Permutation (blocks URL_pathname format resources)
                  (blocks URL_pathname format resources')).
Proof.
  assert (Hgen : forall t,
             generateScript URL_pathname format t resources
             = header format (hd EmptyString (JsString.split "T" t))
               ++ concatAll (blocks URL_pathname format resources)
               ++ trailer format).
  { intros t. unfold generateScript. cbv zeta.
    now rewrite fold_perResource, append_assoc. }
  split; [apply Hgen|]. split; [reflexivity|]. split.
  - intros now'.
    exists (concatAll (blocks URL_pathname format resources) ++ trailer format).
    split; apply Hgen.
  - intros resources'. apply blocks_Permutation.
Qed.

Lemma generateScript_structure_witness :
  Permutation [nodeBar; noLink; modelSd] [modelSd; nodeBar; noLink] /\
  Permutation (blocks noURL bat [nodeBar; noLink; modelSd])
              (blocks noURL bat [modelSd; nodeBar; noLink]) /\
  blocks noURL bat [nodeBar; noLink; modelSd]
  = [block noURL bat nodeBar; block noURL bat modelSd].
Proof.
  assert (Hp : Permutation [nodeBar; noLink; modelSd] [modelSd; nodeBar; noLink]).
  { apply Permutation_sym.
    apply (Permutation_cons_app [nodeBar; noLink] [] modelSd).
    rewrite app_nil_r. apply Permutation_refl. }
  split; [exact Hp|]. split; [|reflexivity].
  destruct (generateScript_structure noURL bat "2026-01-01T00:00:00.000Z"
                                     [nodeBar; noLink; modelSd])
    as [_ [_ [_ H]]].
  exact (H _ Hp).
Defined.

(** C9.  The rule chain on the three URLs of the specification: the
    search query is refused whatever the type, with a reason that speaks
    of a search query; the SSH remote of a custom node is accepted; the
    zip file of a checkpoint is refused by the last rule, its URL naming
    no model host and ending in no model-file extension. *)
Theorem isDirectDownloadUrl_examples :
  (forall t,
      isDirectDownloadUrl "search: lora for anime style" t
      = mkVerdict false
          (Some "This is a search query, not a direct download link.")) /\
  JsString.includes "This is a search query, not a direct download link."
                    "search query" = true /\
  isDirectDownloadUrl "git@github.com:foo/bar.git" CUSTOM_NODE
  = mkVerdict true None /\
  isDirectDownloadUrl "https://example.com/file.zip" CHECKPOINT
  = mkVerdict false
      (Some "Model URL might not be a direct download or recognized hosting platform.") /\
  existsb (fun host => JsString.includes "https://example.com/file.zip" host)
          commonModelHosts = false /\
  modelExtension "https://example.com/file.zip" = false.
Proof.
  split; [intros t; reflexivity|]. repeat split; reflexivity.
Qed.

End ScriptPreviewFacts.

(* ===================================================================== *)
(** ** More on the workflow scanner *)
(* ===================================================================== *)

Module ScannerExtras.
Import Js ComfyParser WorkflowShape ScanLogic ScanNotions Examples MoreExamples
       ComfyParserFacts.

(** *** Rules for a scan whose node items and file items are told apart *)

Section NodeRules.
Variable randomUUID : nat -> string.
(** [P]: what is known of the type names that reach [addItem]. *)
Variable P : string -> Prop.
Context {I : State -> Prop} {E : Exn -> Prop}.
Hypothesis throws_ok : E TypeError.
Hypothesis addFile_spec : forall name, spec I E (addItem randomUUID name false).
Hypothesis addNode_spec :
  forall s, P s -> JsString.truthy s = true -> isCoreNode (JStr s) = inr false ->
            spec I E (addItem randomUUID s true).

Lemma processInputs_rule inputs : spec I E (processInputs randomUUID inputs).
Proof.
  unfold processInputs. destruct inputs as [i|]; [|apply spec_ret].
  destruct (negb (truthy (Some i))); [apply spec_ret|].
  apply spec_forEach_all. intros [key v]; simpl.
  destruct v; try apply spec_ret. apply spec_when, addFile_spec.
Qed.

Lemma captureType_rule t :
  (forall s, t = Some (JStr s) -> P s) -> spec I E (captureType randomUUID t).
Proof.
  intros HP. unfold captureType. destruct t as [v|]; [|apply spec_ret].
  destruct (truthy (Some v)) eqn:Ht; [|apply spec_ret].
  apply spec_lift_bind. destruct v; cbn [isCoreNode]; try exact throws_ok.
  destruct (JsString.mem s CORE_NODES || JsString.startsWith s "ComfyUI") eqn:Hc;
    cbn [negb when]; [apply spec_ret|].
  apply addNode_spec; [now apply HP | exact Ht | cbn [isCoreNode]; now rewrite Hc].
Qed.

Lemma typeOf_field field props s :
  assoc field props = Some (JStr s) -> In s (typeOf field (JObj props)).
Proof. intros H. cbn [typeOf]. rewrite H. now left. Qed.

Lemma savedNode_rule node :
  (forall s, In s (typeOf "type" node) -> P s) ->
  spec I E (savedNode randomUUID node).
Proof.
  intros HP. unfold savedNode. apply spec_lift_bind.
  destruct node; cbn [getProp]; try exact throws_ok;
    (apply spec_bind;
     [apply captureType_rule;
      first [ intros t' Ht'; apply HP; now apply typeOf_field
            | intros t' Ht'; discriminate Ht' ]|];
     intros _; apply spec_lift_bind;
     cbn [getProp]; try apply spec_ret).
  destruct (assoc "widgets_values" props) as [w|]; [|apply spec_ret].
  destruct w; try apply spec_ret.
  apply spec_forEach_all. intros v.
  destruct v; try apply spec_ret. apply spec_when, addFile_spec.
Qed.

Lemma apiNode_rule kv :
  (forall s, In s (typeOf "class_type" (snd kv)) -> P s) ->
  spec I E (apiNode randomUUID kv).
Proof.
  intros HP. unfold apiNode. apply spec_lift_bind.
  destruct (snd kv); cbn [getProp]; try exact throws_ok;
    (apply spec_bind;
     [apply captureType_rule;
      first [ intros t' Ht'; apply HP; now apply typeOf_field
            | intros t' Ht'; discriminate Ht' ]|];
     intros _; apply spec_lift_bind;
     cbn [getProp]; apply spec_when, processInputs_rule).
Qed.

Lemma apiNodes_rule l :
  (forall s, In s (flat_map (fun kv => typeOf "class_type" (snd kv)) l) -> P s) ->
  spec I E (forEach (apiNode randomUUID) l).
Proof.
  intros HP. apply spec_forEach, Forall_forall. intros kv Hin.
  apply apiNode_rule. intros s Hs. apply HP. apply in_flat_map. now exists kv.
Qed.

Lemma scanBody_rule data :
  (forall s, In s (typeNames data) -> P s) ->
  spec I E (scanBody randomUUID data).
Proof.
  intros HP. unfold scanBody. apply spec_lift_bind.
  destruct data; cbn [getProp]; try exact throws_ok;
    try (apply apiNodes_rule; exact HP).
  cbn [typeNames] in HP.
  destruct (assoc "nodes" props) as [v|]; [| apply apiNodes_rule; exact HP].
  destruct v; try (apply apiNodes_rule; exact HP).
  apply spec_forEach, Forall_forall. intros node Hin.
  apply savedNode_rule. intros s Hs. apply HP. apply in_flat_map. now exists node.
Qed.

End NodeRules.

(** What a run of the parser body from the empty state ends in. *)
Lemma scanData_invariant randomUUID (I : State -> Prop) data its :
  I (mkState [] 0) ->
  (forall name, spec I (fun _ => True) (addItem randomUUID name false)) ->
  (forall s, In s (typeNames data) ->
             JsString.truthy s = true -> isCoreNode (JStr s) = inr false ->
             spec I (fun _ => True) (addItem randomUUID s true)) ->
  scanData randomUUID data = inr its ->
  exists st, I st /\ its = Map_values (items st).
Proof.
  intros H0 Hf Hn H. unfold scanData in H.
  pose proof (scanBody_rule randomUUID (fun s => In s (typeNames data))
                            (I := I) (E := fun _ => True)
                            Logic.I Hf Hn data (fun s Hs => Hs)
                            (mkState [] 0) H0) as Hs.
  destruct (scanBody randomUUID data (mkState [] 0)) as [e | [u st]];
    [discriminate H|].
  injection H as <-. now exists st.
Qed.

(** *** Identifiers *)

Lemma map_injective_NoDup {A B} (f : A -> B) l :
  (forall a b, f a = f b -> a = b) -> NoDup l -> NoDup (map f l).
Proof.
  intros Hinj. induction 1 as [| x l Hx _ IH]; simpl; constructor; [|exact IH].
  intros Hin. apply in_map_iff in Hin. destruct Hin as [y [Hy Hin]].
  apply Hinj in Hy. now subst y.
Qed.

Lemma addItem_ids randomUUID name isNode :
  spec (fun st => map (fun kv => id (snd kv)) (items st)
                  = map randomUUID (seq 0 (drawn st)))
       (fun _ => True) (addItem randomUUID name isNode).
Proof.
  intros st H. unfold addItem.
  destruct (negb (JsString.truthy name)); [exact H|].
  destruct (Map_has (JsString.trim name) (items st)) eqn:Hhas;
    cbn [negb items drawn]; [exact H|].
  rewrite (Map_set_absent _ _ _ Hhas), map_app, seq_S, map_app, H. reflexivity.
Qed.

(** X1.  The identifiers of the returned items are the successive draws
    of [crypto.randomUUID], one per item and in the order of the items; so
    they are pairwise distinct when the draws are. *)
Theorem scan_ids_are_the_draws randomUUID JSON_parse jsonString its :
  parseWorkflowData randomUUID JSON_parse jsonString = inr its ->
  map id its = map randomUUID (seq 0 (List.length its)) /\
  ((forall a b, randomUUID a = randomUUID b -> a = b) -> NoDup (map id its)).
Proof.
  intros H. unfold parseWorkflowData in H.
  destruct (JSON_parse jsonString) as [data|]; [|discriminate H].
  destruct (scanData_invariant randomUUID _ data its eq_refl
              (fun name => addItem_ids randomUUID name false)
              (fun s _ _ _ => addItem_ids randomUUID s true) H) as [st [Hst ->]].
  assert (Hids : map id (Map_values (items st)) = map randomUUID (seq 0 (drawn st)))
    by (unfold Map_values; rewrite map_map; exact Hst).
  assert (Hlen : List.length (Map_values (items st)) = drawn st).
  { apply (f_equal (@List.length string)) in Hids.
    now rewrite !length_map, length_seq in Hids. }
  rewrite Hlen. split; [exact Hids|].
  intros Hinj. rewrite Hids. apply map_injective_NoDup; [exact Hinj | apply seq_NoDup].
Qed.

Lemma scan_ids_are_the_draws_witness :
  parseWorkflowData uuidOf (parseOnly spacedText spacedDoc) spacedText
  = inr [mkScanned "uuid-0" "FooNode" true; mkScanned "uuid-1" "a.ckpt" false] /\
  map id [mkScanned "uuid-0" "FooNode" true; mkScanned "uuid-1" "a.ckpt" false]
  = map uuidOf (seq 0 2).
Proof.
  split; [reflexivity|].
  apply (scan_ids_are_the_draws uuidOf (parseOnly spacedText spacedDoc) spacedText).
  reflexivity.
Defined.

(** *** Node items *)

Lemma addFile_nodesNamed randomUUID data name :
  spec (nodesNamed data) (fun _ => True) (addItem randomUUID name false).
Proof.
  intros st H. unfold addItem.
  destruct (negb (JsString.truthy name)); [exact H|].
  destruct (Map_has (JsString.trim name) (items st)) eqn:Hhas; simpl; [exact H|].
  unfold nodesNamed. simpl. rewrite (Map_set_absent _ _ _ Hhas).
  apply Forall_app. split; [exact H|]. constructor; [|constructor].
  simpl. discriminate.
Qed.

Lemma addNode_nodesNamed randomUUID data s :
  In s (typeNames data) ->
  JsString.truthy s = true -> isCoreNode (JStr s) = inr false ->
  spec (nodesNamed data) (fun _ => True) (addItem randomUUID s true).
Proof.
  intros Hin Hs Hcore st H. unfold addItem. rewrite Hs. simpl negb. cbv iota.
  destruct (Map_has (JsString.trim s) (items st)) eqn:Hhas; simpl; [exact H|].
  unfold nodesNamed. simpl. rewrite (Map_set_absent _ _ _ Hhas).
  apply Forall_app. split; [exact H|]. constructor; [|constructor].
  simpl. intros _. exists s. cbn [isCoreNode] in Hcore.
  injection Hcore as Hcore. apply orb_false_iff in Hcore.
  destruct Hcore as [Hm Hp]. auto.
Qed.

(** X2.  Every returned item that is flagged as a node bears the trimmed
    form of a type name that the document holds ([type] of an element of
    its [nodes] array, [class_type] of one of its values otherwise), and
    that name, as written, is not empty, is not in [CORE_NODES] and does
    not start with [ComfyUI].  So a document whose only type names are
    core names yields no node item. *)
Theorem scan_node_items_are_not_core randomUUID JSON_parse jsonString data its :
  JSON_parse jsonString = Some data ->
  parseWorkflowData randomUUID JSON_parse jsonString = inr its ->
  Forall (fun it => isNode it = true -> nodeNameOf data (rawName it)) its /\
  ((forall t, In t (typeNames data) -> isCoreNode (JStr t) = inr true) ->
   Forall (fun it => isNode it = false) its).
Proof.
  intros Hd H. unfold parseWorkflowData in H. rewrite Hd in H.
  destruct (scanData_invariant randomUUID (nodesNamed data) data its
              (Forall_nil _) (addFile_nodesNamed randomUUID data)
              (addNode_nodesNamed randomUUID data) H) as [st [Hst ->]].
  assert (Hall : Forall (fun it => isNode it = true -> nodeNameOf data (rawName it))
                        (Map_values (items st)))
    by (unfold Map_values; rewrite Forall_map; exact Hst).
  split; [exact Hall|].
  intros Hcore. eapply Forall_impl; [|exact Hall].
  intros it Hit. cbv beta in Hit. destruct (isNode it); [|reflexivity].
  destruct (Hit eq_refl) as [t [Hin [_ [_ [Hm Hp]]]]].
  specialize (Hcore t Hin). cbn [isCoreNode] in Hcore.
  rewrite Hm, Hp in Hcore. discriminate Hcore.
Qed.

Lemma scan_node_items_are_not_core_witness :
  parseWorkflowData uuidOf (parseOnly mixedText mixedDoc) mixedText
  = inr [mkScanned "uuid-0" "FooNode" true; mkScanned "uuid-1" "a.ckpt" false] /\
  Forall (fun it => isNode it = true -> nodeNameOf mixedDoc (rawName it))
         [mkScanned "uuid-0" "FooNode" true; mkScanned "uuid-1" "a.ckpt" false] /\
  typeNames scenarioDoc = ["CheckpointLoaderSimple"] /\
  Forall (fun it => isNode it = false)
         [mkScanned "uuid-0" "v1-5-pruned.ckpt" false].
Proof.
  split; [reflexivity|]. split; [|split; [reflexivity|]].
  - apply (scan_node_items_are_not_core
             uuidOf (parseOnly mixedText mixedDoc) mixedText mixedDoc);
      reflexivity.
  - apply (proj2 (scan_node_items_are_not_core
                    uuidOf (parseOnly scenarioText scenarioDoc) scenarioText
                    scenarioDoc
                    [mkScanned "uuid-0" "v1-5-pruned.ckpt" false]
                    eq_refl eq_refl)).
    intros t [<- | []]. reflexivity.
Defined.

(** *** What is extracted *)

Lemma Map_has_app k m m' :
  Map_has k (m ++ m') = Map_has k m || Map_has k m'.
Proof. unfold Map_has. apply existsb_app. Qed.

Lemma Map_has_In k m :
  Map_has k m = true -> exists v, In (k, v) m.
Proof.
  unfold Map_has. intros H. apply existsb_exists in H.
  destruct H as [[k' v] [Hin Heq]]. simpl in Heq.
  apply String.eqb_eq in Heq. subst k'. now exists v.
Qed.

Section Extraction.
Variable randomUUID : nat -> string.

Lemma addItem_keeps k name isNode : keeps k (addItem randomUUID name isNode).
Proof.
  intros st H. unfold addItem.
  destruct (negb (JsString.truthy name)); [exact H|].
  destruct (Map_has (JsString.trim name) (items st)) eqn:Hhas;
    cbn [negb items]; [exact H|].
  rewrite (Map_set_absent _ _ _ Hhas), Map_has_app, H. reflexivity.
Qed.

Lemma addItem_establishes name isNode :
  JsString.truthy name = true ->
  establishes (JsString.trim name) (addItem randomUUID name isNode).
Proof.
  intros Hn st. unfold addItem. rewrite Hn. cbn [negb].
  destruct (Map_has (JsString.trim name) (items st)) eqn:Hhas;
    cbn [negb items]; [exact Hhas|].
  rewrite (Map_set_absent _ _ _ Hhas), Map_has_app. cbn [Map_has existsb fst].
  rewrite String.eqb_refl. now rewrite orb_true_r.
Qed.

Lemma establishes_bind_l {A B} k (m : M A) (f : A -> M B) :
  establishes k m -> (forall a, keeps k (f a)) -> establishes k (bind m f).
Proof.
  intros Hm Hf st. unfold bind. specialize (Hm st).
  destruct (m st) as [e | [a st']]; [exact I|]. exact (Hf a st' Hm).
Qed.

Lemma establishes_bind_r {A B} k (m : M A) (f : A -> M B) :
  (forall a, establishes k (f a)) -> establishes k (bind m f).
Proof.
  intros Hf st. unfold bind.
  destruct (m st) as [e | [a st']]; [exact I | apply Hf].
Qed.

Lemma establishes_lift_bind {A B} k (t : Throwing A) (f : A -> M B) :
  match t with inl _ => True | inr a => establishes k (f a) end ->
  establishes k (bind (lift t) f).
Proof.
  intros Ht st. unfold bind, lift. destruct t as [e | a]; [exact I | apply Ht].
Qed.

Lemma establishes_forEach {A} k (f : A -> M unit) l a :
  In a l -> establishes k (f a) -> (forall b, keeps k (f b)) ->
  establishes k (forEach f l).
Proof.
  intros Hin Ha Hk. induction l as [| b l IH]; [destruct Hin|].
  cbn [forEach]. destruct Hin as [-> | Hin].
  - apply establishes_bind_l; [exact Ha|].
    intros _. apply spec_forEach_all. exact Hk.
  - apply establishes_bind_r. intros _. now apply IH.
Qed.

Lemma fails_bind_l {A B} (m : M A) (f : A -> M B) : fails m -> fails (bind m f).
Proof.
  intros Hm st. destruct (Hm st) as [e He]. exists e. unfold bind. now rewrite He.
Qed.

Lemma fails_bind_r {A B} (m : M A) (f : A -> M B) :
  (forall a, fails (f a)) -> fails (bind m f).
Proof.
  intros Hf st. unfold bind. destruct (m st) as [e | [a st']]; [now exists e|].
  apply Hf.
Qed.

Lemma fails_forEach {A} (f : A -> M unit) l a :
  In a l -> fails (f a) -> fails (forEach f l).
Proof.
  intros Hin Ha. induction l as [| b l IH]; [destruct Hin|].
  cbn [forEach]. destruct Hin as [-> | Hin].
  - now apply fails_bind_l.
  - apply fails_bind_r. intros _. now apply IH.
Qed.

(** The parts of the body keep what is filed. *)
Lemma captureType_keeps k t : keeps k (captureType randomUUID t).
Proof.
  apply captureType_spec; [intros; apply addItem_keeps | now left].
Qed.

Lemma processInputs_keeps k i : keeps k (processInputs randomUUID i).
Proof. apply processInputs_spec. intros; apply addItem_keeps. Qed.

Lemma savedNode_keeps k node : keeps k (savedNode randomUUID node).
Proof. apply savedNode_spec; [intros; apply addItem_keeps | now left]. Qed.

Lemma apiNode_keeps k kv : keeps k (apiNode randomUUID kv).
Proof. apply apiNode_spec; [intros; apply addItem_keeps | now left]. Qed.

Lemma captureType_establishes t :
  JsString.truthy t = true -> isCoreNode (JStr t) = inr false ->
  establishes (JsString.trim t) (captureType randomUUID (Some (JStr t))).
Proof.
  intros Ht Hc. unfold captureType. cbn [truthy]. rewrite Ht.
  apply establishes_lift_bind. rewrite Hc. cbn [negb when].
  now apply addItem_establishes.
Qed.

Lemma captureType_fails v :
  truthy (Some v) = true -> (forall s, v <> JStr s) ->
  fails (captureType randomUUID (Some v)).
Proof.
  intros Ht Hv st. unfold captureType. rewrite Ht. exists TypeError.
  unfold bind, lift.
  destruct v; cbn [isCoreNode]; try reflexivity. now destruct (Hv s).
Qed.

Lemma widgetIsFile_truthy v : widgetIsFile v = true -> JsString.truthy v = true.
Proof. destruct v; [discriminate | reflexivity]. Qed.

Lemma savedNode_establishes_type p t :
  assoc "type" p = Some (JStr t) ->
  JsString.truthy t = true -> isCoreNode (JStr t) = inr false ->
  establishes (JsString.trim t) (savedNode randomUUID (JObj p)).
Proof.
  intros Hp Ht Hc. unfold savedNode. apply establishes_lift_bind.
  cbn [getProp]. rewrite Hp. apply establishes_bind_l.
  - now apply captureType_establishes.
  - intros _. apply spec_lift_bind. cbn [getProp].
    destruct (assoc "widgets_values" p) as [w|]; [|apply spec_ret].
    destruct w; try apply spec_ret.
    apply widgets_spec. intros; apply addItem_keeps.
Qed.

Lemma savedNode_establishes_widget p vals v :
  assoc "widgets_values" p = Some (JArr vals) ->
  In (JStr v) vals -> widgetIsFile v = true ->
  establishes (JsString.trim v) (savedNode randomUUID (JObj p)).
Proof.
  intros Hp Hin Hv. unfold savedNode. apply establishes_lift_bind.
  cbn [getProp]. apply establishes_bind_r. intros _.
  apply establishes_lift_bind. cbn [getProp]. rewrite Hp.
  apply (establishes_forEach _ _ vals (JStr v) Hin).
  - rewrite Hv. cbn [when]. apply addItem_establishes.
    now apply widgetIsFile_truthy.
  - intros b. destruct b; try apply spec_ret.
    apply spec_when, addItem_keeps.
Qed.

Lemma apiNode_establishes_type key p t :
  assoc "class_type" p = Some (JStr t) ->
  JsString.truthy t = true -> isCoreNode (JStr t) = inr false ->
  establishes (JsString.trim t) (apiNode randomUUID (key, JObj p)).
Proof.
  intros Hp Ht Hc. unfold apiNode. cbn [snd]. apply establishes_lift_bind.
  cbn [getProp]. rewrite Hp. apply establishes_bind_l.
  - now apply captureType_establishes.
  - intros _. apply spec_lift_bind. cbn [getProp].
    apply spec_when, processInputs_keeps.
Qed.

Lemma apiNode_establishes_input key p ins ik value :
  assoc "inputs" p = Some (JObj ins) ->
  In (ik, JStr value) ins ->
  inputIsFile ik value = true -> JsString.truthy value = true ->
  establishes (JsString.trim value) (apiNode randomUUID (key, JObj p)).
Proof.
  intros Hp Hin Hf Hv. unfold apiNode. cbn [snd]. apply establishes_lift_bind.
  cbn [getProp]. apply establishes_bind_r. intros _.
  apply establishes_lift_bind. cbn [getProp]. rewrite Hp.
  cbn [truthy when processInputs negb forIn].
  apply (establishes_forEach _ _ ins (ik, JStr value) Hin).
  - cbn [snd fst]. rewrite Hf. cbn [when]. now apply addItem_establishes.
  - intros [k' b]. cbn [snd fst]. destruct b; try apply spec_ret.
    apply spec_when, addItem_keeps.
Qed.

Lemma savedNode_fails node :
  badNode "type" node = true -> fails (savedNode randomUUID node).
Proof.
  intros Hb. unfold savedNode.
  destruct node as [ | b | q | s | l | p]; try discriminate Hb.
  - intros st. now exists TypeError.
  - cbn [badNode] in Hb.
    destruct (assoc "type" p) as [v|] eqn:Hp; [|discriminate Hb].
    intros st. unfold bind at 1. cbn [lift getProp]. rewrite Hp.
    apply fails_bind_l. apply captureType_fails.
    + destruct v; try exact Hb; discriminate Hb.
    + intros s ->. discriminate Hb.
Qed.

Lemma apiNode_fails key node :
  badNode "class_type" node = true -> fails (apiNode randomUUID (key, node)).
Proof.
  intros Hb. unfold apiNode. cbn [snd].
  destruct node as [ | b | q | s | l | p]; try discriminate Hb.
  - intros st. now exists TypeError.
  - cbn [badNode] in Hb.
    destruct (assoc "class_type" p) as [v|] eqn:Hp; [|discriminate Hb].
    intros st. unfold bind at 1. cbn [lift getProp]. rewrite Hp.
    apply fails_bind_l. apply captureType_fails.
    + destruct v; try exact Hb; discriminate Hb.
    + intros s ->. discriminate Hb.
Qed.

(** From the body to the returned list. *)
Lemma scanData_filed data k its :
  establishes k (scanBody randomUUID data) ->
  scanData randomUUID data = inr its ->
  exists it, In it its /\ rawName it = k.
Proof.
  intros He H. unfold scanData in H. specialize (He (mkState [] 0)).
  pose proof (scanBody_spec randomUUID (I := wf) (E := fun _ => True)
                (fun name isNode => addItem_wf randomUUID _ name isNode)
                data (or_introl I) (mkState [] 0)) as Hwf.
  assert (H0 : wf (mkState [] 0)) by (split; simpl; constructor).
  specialize (Hwf H0).
  destruct (scanBody randomUUID data (mkState [] 0)) as [e | [u st]];
    [discriminate H|].
  injection H as <-. destruct (Map_has_In _ _ He) as [v Hin].
  destruct Hwf as [_ Hk]. rewrite Forall_forall in Hk.
  destruct (Hk _ Hin) as [Hr _]. exists v. split; [|exact Hr].
  unfold Map_values. apply in_map_iff. now exists (k, v).
Qed.

Lemma scanData_fails data :
  fails (scanBody randomUUID data) -> scanData randomUUID data = inl TypeError.
Proof.
  intros Hf. pose proof (scanData_cases randomUUID data) as Hc.
  unfold scanData in *. destruct (Hf (mkState [] 0)) as [e He].
  rewrite He in *. now subst e.
Qed.

End Extraction.

(** X3.  In a document with a [nodes] array, every non-empty type name
    of a node that is not a core node, and every string of a node's
    [widgets_values] that ends in [.safetensors] or [.ckpt] whatever the
    case of its letters, is the name of a returned item, in its trimmed
    form. *)
Theorem graph_form_names_extracted randomUUID o ns its :
  assoc "nodes" o = Some (JArr ns) ->
  scanData randomUUID (JObj o) = inr its ->
  (forall p t,
      In (JObj p) ns -> assoc "type" p = Some (JStr t) ->
      JsString.truthy t = true -> isCoreNode (JStr t) = inr false ->
      exists it, In it its /\ rawName it = JsString.trim t) /\
  (forall p vals v,
      In (JObj p) ns -> assoc "widgets_values" p = Some (JArr vals) ->
      In (JStr v) vals -> widgetIsFile v = true ->
      exists it, In it its /\ rawName it = JsString.trim v).
Proof.
  intros Hn H. split.
  - intros p t Hin Hp Ht Hc. apply (scanData_filed randomUUID (JObj o)); [|exact H].
    unfold scanBody. apply establishes_lift_bind. cbn [getProp]. rewrite Hn.
    apply (establishes_forEach _ _ ns (JObj p) Hin).
    + now apply savedNode_establishes_type.
    + intros b. apply savedNode_keeps.
  - intros p vals v Hin Hp Hv Hf.
    apply (scanData_filed randomUUID (JObj o)); [|exact H].
    unfold scanBody. apply establishes_lift_bind. cbn [getProp]. rewrite Hn.
    apply (establishes_forEach _ _ ns (JObj p) Hin).
    + now apply (savedNode_establishes_widget randomUUID p vals v).
    + intros b. apply savedNode_keeps.
Qed.

Lemma graph_form_names_extracted_witness :
  scanData uuidOf spacedDoc
  = inr [mkScanned "uuid-0" "FooNode" true; mkScanned "uuid-1" "a.ckpt" false] /\
  (exists it,
      In it [mkScanned "uuid-0" "FooNode" true; mkScanned "uuid-1" "a.ckpt" false] /\
      rawName it = JsString.trim "FooNode") /\
  (exists it,
      In it [mkScanned "uuid-0" "FooNode" true; mkScanned "uuid-1" "a.ckpt" false] /\
      rawName it = JsString.trim " a.ckpt").
Proof.
  split; [reflexivity|].
  destruct (graph_form_names_extracted
              uuidOf
              [("nodes",
                JArr [JObj [("type", JStr "FooNode");
                            ("widgets_values",
                             JArr [JStr " a.ckpt"; JStr "a.ckpt "; JStr "a.ckpt"])]])]
              _ _ eq_refl eq_refl) as [Ht Hw].
  split.
  - apply (Ht _ "FooNode" (or_introl eq_refl) eq_refl eq_refl eq_refl).
  - apply (Hw _ _ " a.ckpt" (or_introl eq_refl) eq_refl (or_introl eq_refl) eq_refl).
Defined.

(** X4.  In a document without a [nodes] array, every non-empty
    [class_type] of a node that is not a core node, and every non-empty
    string of a node's [inputs] object whose key is one of [fileKeys] or
    which ends in [.safetensors], [.ckpt], [.pt] or [.pth] whatever the
    key and the case, is the name of a returned item, in its trimmed
    form. *)
Theorem execution_form_names_extracted randomUUID o its :
  (forall ns, assoc "nodes" o <> Some (JArr ns)) ->
  scanData randomUUID (JObj o) = inr its ->
  (forall key p t,
      In (key, JObj p) o -> assoc "class_type" p = Some (JStr t) ->
      JsString.truthy t = true -> isCoreNode (JStr t) = inr false ->
      exists it, In it its /\ rawName it = JsString.trim t) /\
  (forall key p ins ik value,
      In (key, JObj p) o -> assoc "inputs" p = Some (JObj ins) ->
      In (ik, JStr value) ins ->
      inputIsFile ik value = true -> JsString.truthy value = true ->
      exists it, In it its /\ rawName it = JsString.trim value).
Proof.
  intros Hn H.
  assert (Hbody : forall k key p,
             In (key, JObj p) o ->
             establishes k (apiNode randomUUID (key, JObj p)) ->
             establishes k (scanBody randomUUID (JObj o))).
  { intros k key p Hin He. unfold scanBody. apply establishes_lift_bind.
    cbn [getProp forIn].
    assert (Hall : establishes k (forEach (apiNode randomUUID) o))
      by (apply (establishes_forEach _ _ o (key, JObj p) Hin He);
          intros b; apply apiNode_keeps).
    destruct (assoc "nodes" o) as [v|]; [|exact Hall].
    destruct v; try exact Hall. now destruct (Hn elems). }
  split.
  - intros key p t Hin Hp Ht Hc.
    apply (scanData_filed randomUUID (JObj o)); [|exact H].
    apply (Hbody _ key p Hin). now apply apiNode_establishes_type.
  - intros key p ins ik value Hin Hp Hi Hf Hv.
    apply (scanData_filed randomUUID (JObj o)); [|exact H].
    apply (Hbody _ key p Hin).
    now apply (apiNode_establishes_input randomUUID key p ins ik value).
Qed.

Lemma execution_form_names_extracted_witness :
  scanData uuidOf docInputPt = inr [mkScanned "uuid-0" "model.pt" false] /\
  exists it, In it [mkScanned "uuid-0" "model.pt" false] /\
             rawName it = JsString.trim "model.pt".
Proof.
  split; [reflexivity|].
  assert (Hn : forall ns,
             assoc "nodes"
                   [("4", JObj [("class_type", JStr "KSampler");
                                ("inputs", JObj [("weights", JStr "model.pt")])])]
             <> Some (JArr ns)) by (intros ns; discriminate).
  destruct (execution_form_names_extracted uuidOf _ _ Hn eq_refl) as [_ Hi].
  apply (Hi "4" _ _ "weights" "model.pt" (or_introl eq_refl) eq_refl
            (or_introl eq_refl) eq_refl eq_refl).
Defined.

(** X5.  A document one of whose node records is [null], or has an
    identifier that is a truthy value other than a string, makes the scan
    throw a [TypeError]: no list is returned, and the error is not the
    parse error. *)
Theorem scan_throws_on_bad_node randomUUID o :
  (forall ns node,
      assoc "nodes" o = Some (JArr ns) -> In node ns ->
      badNode "type" node = true ->
      scanData randomUUID (JObj o) = inl TypeError) /\
  (forall key node,
      (forall ns, assoc "nodes" o <> Some (JArr ns)) -> In (key, node) o ->
      badNode "class_type" node = true ->
      scanData randomUUID (JObj o) = inl TypeError).
Proof.
  split.
  - intros ns node Hn Hin Hb. apply scanData_fails.
    unfold scanBody. intros st. unfold bind at 1. cbn [lift getProp]. rewrite Hn.
    apply (fails_forEach _ ns node Hin). now apply savedNode_fails.
  - intros key node Hn Hin Hb. apply scanData_fails.
    unfold scanBody. intros st. unfold bind at 1. cbn [lift getProp forIn].
    assert (Hall : fails (forEach (apiNode randomUUID) o))
      by (apply (fails_forEach _ o (key, node) Hin); now apply apiNode_fails).
    destruct (assoc "nodes" o) as [v|]; [|apply Hall].
    destruct v; try apply Hall. now destruct (Hn elems).
Qed.

Lemma scan_throws_on_bad_node_witness :
  scanData uuidOf nullNodeDoc = inl TypeError /\
  scanData uuidOf numberTypeDoc = inl TypeError.
Proof.
  split.
  - apply (proj1 (scan_throws_on_bad_node
                    uuidOf
                    [("nodes", JArr [JObj [("type", JStr "FooNode")]; JNull])])
                 [JObj [("type", JStr "FooNode")]; JNull] JNull eq_refl);
      [right; now left | reflexivity].
  - apply (proj2 (scan_throws_on_bad_node
                    uuidOf [("7", JObj [("class_type", JNum (5 # 1)%Q)])])
                 "7" (JObj [("class_type", JNum (5 # 1)%Q)])).
    + intros ns. discriminate.
    + now left.
    + reflexivity.
Defined.

End ScannerExtras.

(* ===================================================================== *)
(** ** More on the resource resolver *)
(* ===================================================================== *)

Module ResolverExtras.
Import GeminiService ResolverLogic Examples MoreExamples GeminiServiceFacts.

Lemma ceil_step len :
  1 <= len ->
  (len + 19) / BATCH_SIZE = S ((len - BATCH_SIZE + 19) / BATCH_SIZE).
Proof.
  unfold BATCH_SIZE. intros Hlen.
  destruct (Nat.le_gt_cases 20 len) as [Hge | Hlt].
  - replace (len + 19) with ((len - 20 + 19) + 1 * 20) by lia.
    rewrite Nat.div_add by discriminate. lia.
  - replace (len - 20) with 0 by lia.
    replace (len + 19) with ((len - 1) + 1 * 20) by lia.
    rewrite Nat.div_add by discriminate.
    rewrite (Nat.div_small (len - 1) 20) by lia. reflexivity.
Qed.

Lemma chunksFrom_slices fuel : forall items,
  List.length items <= fuel ->
  chunksFrom fuel items
  = map (fun j => firstn BATCH_SIZE (skipn (BATCH_SIZE * j) items))
        (seq 0 ((List.length items + 19) / BATCH_SIZE)).
Proof.
  induction fuel as [| fuel IH]; intros items Hlen.
  - destruct items; [reflexivity | simpl in Hlen; lia].
  - destruct items as [| it items]; [reflexivity|].
    cbn [chunksFrom]. rewrite IH by (rewrite length_skipn; simpl in *; lia).
    rewrite (ceil_step (List.length (it :: items))) by (simpl; lia).
    rewrite length_skipn. cbn [seq map].
    rewrite Nat.mul_0_r. cbn [skipn]. f_equal.
    rewrite <- seq_shift, map_map. apply map_ext. intros j.
    rewrite skipn_skipn. do 2 f_equal. lia.
Qed.

(** X6.  The chunks are the slices [items.slice(i, i + 20)] for
    [i = 0, 20, 40, ...] below the number of items: there are as many as
    the number of items divided by twenty, rounded up; every chunk holds
    between one and twenty items, and every chunk but the last holds
    twenty. *)
Theorem chunks_are_slices items :
  chunksOf items
  = map (fun j => firstn BATCH_SIZE (skipn (BATCH_SIZE * j) items))
        (seq 0 ((List.length items + 19) / BATCH_SIZE)) /\
  List.length (chunksOf items) = (List.length items + 19) / BATCH_SIZE /\
  (forall j c,
      nth_error (chunksOf items) j = Some c ->
      1 <= List.length c <= BATCH_SIZE /\
      (S j < List.length (chunksOf items) -> List.length c = BATCH_SIZE)).
Proof.
  assert (Heq : chunksOf items
                = map (fun j => firstn BATCH_SIZE (skipn (BATCH_SIZE * j) items))
                      (seq 0 ((List.length items + 19) / BATCH_SIZE)))
    by (apply chunksFrom_slices; apply Nat.le_refl).
  assert (Hlen : List.length (chunksOf items)
                 = (List.length items + 19) / BATCH_SIZE)
    by (rewrite Heq, length_map, length_seq; reflexivity).
  split; [exact Heq|]. split; [exact Hlen|].
  intros j c Hj.
  assert (Hlt : j < (List.length items + 19) / BATCH_SIZE).
  { rewrite <- Hlen. apply nth_error_Some. congruence. }
  rewrite Hlen. rewrite Heq in Hj.
  rewrite nth_error_map, nth_error_seq in Hj.
  apply Nat.ltb_lt in Hlt as Hltb. rewrite Hltb in Hj.
  cbn [option_map Nat.add] in Hj.
  assert (Hc : firstn BATCH_SIZE (skipn (BATCH_SIZE * j) items) = c)
    by congruence.
  clear Hj. subst c.
  pose proof (Nat.Div0.mul_div_le (List.length items + 19) BATCH_SIZE) as Hq.
  unfold BATCH_SIZE in *.
  rewrite length_firstn, length_skipn. lia.
Qed.

(** *** A response that covers its chunk *)

Lemma find_by_name chunk c :
  NoDup (map rawName chunk) -> In c chunk ->
  find (fun c' => String.eqb (rawName c') (rawName c)) chunk = Some c.
Proof.
  induction chunk as [| c' rest IH]; intros Hnd Hin; [destruct Hin|].
  cbn [map] in Hnd. inversion Hnd as [| x l Hnot Hrest]; subst.
  cbn [find]. destruct (String.eqb (rawName c') (rawName c)) eqn:Heq.
  - apply String.eqb_eq in Heq. destruct Hin as [-> | Hin]; [reflexivity|].
    exfalso. apply Hnot. rewrite Heq. now apply in_map.
  - destruct Hin as [-> | Hin]; [now rewrite String.eqb_refl in Heq|].
    now apply IH.
Qed.

Section Covered.
Variable randomUUID : nat -> string.
Variable ai : nat -> list ScannedItem -> Outcome.

Lemma mergedChunk_covered chunk :
  NoDup (map rawName chunk) ->
  forall gs sub n,
    (forall c, In c sub -> In c chunk) ->
    map g_rawName gs = map rawName sub ->
    snd (mergedChunk randomUUID chunk gs n) = n /\
    map r_id (fst (mergedChunk randomUUID chunk gs n)) = map id sub /\
    map r_rawName (fst (mergedChunk randomUUID chunk gs n)) = map rawName sub /\
    map r_isNode (fst (mergedChunk randomUUID chunk gs n)) = map isNode sub.
Proof.
  intros Hnd. induction gs as [| res gs IH]; intros sub n Hsub Hnames.
  - destruct sub; [now repeat split | discriminate Hnames].
  - destruct sub as [| c sub]; [discriminate Hnames|].
    cbn [map] in Hnames. injection Hnames as Hname Hrest.
    assert (Hfind : findOriginal chunk res = Some c).
    { unfold findOriginal. rewrite Hname.
      apply find_by_name; [exact Hnd | apply Hsub; now left]. }
    cbn [mergedChunk]. unfold merge. rewrite Hfind.
    destruct (IH sub n (fun c' H => Hsub c' (or_intror H)) Hrest)
      as [Hn [Hid [Hrn Hin]]].
    destruct (mergedChunk randomUUID chunk gs n) as [rs n2].
    cbn [fst snd map r_id r_rawName r_isNode] in *.
    repeat split; [exact Hn | | |]; f_equal; assumption.
Qed.

Lemma resolveLoop_covered chunks : forall k acc n,
  NoDup (map rawName (List.concat chunks)) ->
  (forall j chunk,
      nth_error chunks j = Some chunk ->
      exists gs, ai (k + j) chunk = Parsed gs /\
                 map g_rawName gs = map rawName chunk) ->
  exists out,
    resolveLoop randomUUID ai k chunks acc n = inr (acc ++ out)%list /\
    map r_id out = map id (List.concat chunks) /\
    map r_rawName out = map rawName (List.concat chunks) /\
    map r_isNode out = map isNode (List.concat chunks).
Proof.
  induction chunks as [| chunk rest IH]; intros k acc n Hnd Hai.
  - exists []. cbn. now rewrite app_nil_r.
  - cbn [List.concat] in Hnd. rewrite map_app in Hnd.
    destruct (Hai 0 chunk eq_refl) as [gs [Hgs Hnames]].
    rewrite Nat.add_0_r in Hgs.
    destruct (mergedChunk_covered chunk (NoDup_app_remove_r _ _ Hnd)
                                  gs chunk n (fun c H => H) Hnames)
      as [Hn [Hid [Hrn Hin]]].
    cbn [resolveLoop]. rewrite Hgs.
    destruct (mergedChunk randomUUID chunk gs n) as [merged n'].
    cbn [fst snd] in *.
    destruct (IH (S k) (acc ++ merged)%list n' (NoDup_app_remove_l _ _ Hnd))
      as [out [Hout [Hid' [Hrn' Hin']]]].
    { intros j c Hj. replace (S k + j) with (k + S j) by lia. now apply Hai. }
    exists (merged ++ out)%list. rewrite app_assoc. split; [exact Hout|].
    cbn [List.concat]. rewrite !map_app.
    repeat split; f_equal; assumption.
Qed.

End Covered.

(** X7.  With an API key, items of pairwise distinct names, and every
    call answered by a parsed response that names the items of its chunk
    one by one in their order, the resolver returns one resource per
    scanned item, in the order of the items, with the item's [id],
    [rawName] and [isNode]. *)
Theorem covered_items_keep_identity randomUUID API_KEY ai items :
  JsString.truthy API_KEY = true ->
  NoDup (map rawName items) ->
  (forall j chunk,
      nth_error (chunksOf items) j = Some chunk ->
      exists gs, ai j chunk = Parsed gs /\
                 map g_rawName gs = map rawName chunk) ->
  exists out,
    analyzeResourcesWithGemini randomUUID API_KEY ai items = inr out /\
    map r_id out = map id items /\
    map r_rawName out = map rawName items /\
    map r_isNode out = map isNode items.
Proof.
  intros Hkey Hnd Hai. unfold analyzeResourcesWithGemini.
  rewrite Hkey. cbn [negb].
  destruct (resolveLoop_covered randomUUID ai (chunksOf items) 0 [] 0)
    as [out [Hout Hids]].
  - now rewrite chunksOf_concat.
  - exact Hai.
  - exists out. rewrite chunksOf_concat in Hids. now split.
Qed.

Lemma covered_items_keep_identity_witness :
  JsString.truthy "key" = true /\
  NoDup (map rawName [itemA]) /\
  exists out,
    analyzeResourcesWithGemini uuidOf "key" (fun _ _ => Parsed [guessA]) [itemA]
    = inr out /\
    map r_id out = ["id-a"].
Proof.
  assert (Hnd : NoDup (map rawName [itemA]))
    by (constructor; [intros [] | constructor]).
  split; [reflexivity|]. split; [exact Hnd|].
  destruct (covered_items_keep_identity
              uuidOf "key" (fun _ _ => Parsed [guessA]) [itemA] eq_refl Hnd)
    as [out [Hout [Hid _]]].
  - intros j chunk Hj. exists [guessA]. split; [reflexivity|].
    destruct j as [| j]; cbn in Hj; [injection Hj as <-; reflexivity|].
    destruct j; discriminate Hj.
  - exists out. split; [exact Hout | exact Hid].
Defined.

End ResolverExtras.

(* ===================================================================== *)
(** ** More on URL validation *)
(* ===================================================================== *)

Module ValidationExtras.
Import ScriptPreview ValidationEffect ValidationNotions Examples.

Lemma short_when_empty url :
  JsString.truthy url = false -> (String.length url <? 5)%nat = true.
Proof. destruct url; [reflexivity | discriminate]. Qed.

(** X8.  Validation reads the URL as written only to test whether it has
    fewer than five code units; every other test reads its lower-case
    form.  So two URLs with the same lower-case form, both shorter than
    five code units or both not, get the same verdict, validity and
    reason, for every resource type. *)
Theorem validation_ignores_case url url' t :
  (String.length url <? 5)%nat = (String.length url' <? 5)%nat ->
  JsString.toLowerCase url = JsString.toLowerCase url' ->
  isDirectDownloadUrl url t = isDirectDownloadUrl url' t.
Proof.
  intros Hlen Hlow. unfold isDirectDownloadUrl. rewrite <- Hlen, <- Hlow.
  destruct (String.length url <? 5)%nat eqn:Hshort.
  - now rewrite !orb_true_r.
  - assert (Ht : forall u, (String.length u <? 5)%nat = false ->
                           JsString.truthy u = true)
      by (intros [| c u] H; [discriminate H | reflexivity]).
    rewrite (Ht url Hshort), (Ht url') by congruence. reflexivity.
Qed.

Lemma validation_ignores_case_witness :
  isDirectDownloadUrl "HTTPS://HuggingFace.co/SD/Model.SafeTensors" CHECKPOINT
  = isDirectDownloadUrl "https://huggingface.co/sd/model.safetensors" CHECKPOINT.
Proof.
  apply (validation_ignores_case
           "HTTPS://HuggingFace.co/SD/Model.SafeTensors"
           "https://huggingface.co/sd/model.safetensors" CHECKPOINT);
    reflexivity.
Defined.

(** X9.  A URL is accepted exactly when it has five characters or more,
    its lower-case form starts with neither [search:] nor [page:], and,
    for a custom node, names [github.com] and starts with [http://],
    [https://] or [git@]; for any other type, starts with [http://] or
    [https://] and names a known model host or ends in a model-file
    extension. *)
Theorem accepted_urls url t :
  isValid (isDirectDownloadUrl url t) = true <->
  let lowerUrl := JsString.toLowerCase url in
  (String.length url <? 5)%nat = false /\
  JsString.startsWith lowerUrl "search:" = false /\
  JsString.startsWith lowerUrl "page:" = false /\
  if ResourceType_eqb t CUSTOM_NODE
  then JsString.includes lowerUrl "github.com" = true /\
       (JsString.startsWith lowerUrl "http://" = true \/
        JsString.startsWith lowerUrl "https://" = true \/
        JsString.startsWith lowerUrl "git@" = true)
  else (JsString.startsWith lowerUrl "http://" = true \/
        JsString.startsWith lowerUrl "https://" = true) /\
       (existsb (fun host => JsString.includes lowerUrl host) commonModelHosts
        = true \/
        modelExtension lowerUrl = true).
Proof.
  cbv zeta. unfold isDirectDownloadUrl.
  pose proof (short_when_empty url) as Hshort.
  destruct (JsString.truthy url);
    destruct (String.length url <? 5)%nat;
    try (specialize (Hshort eq_refl); discriminate Hshort);
    cbn [negb orb];
    try (cbn [isValid]; split; [discriminate | intros [H _]; discriminate H]).
  destruct (JsString.startsWith (JsString.toLowerCase url) "search:");
    [cbn [isValid]; split; [discriminate | intros [_ [H _]]; discriminate H]|].
  destruct (JsString.startsWith (JsString.toLowerCase url) "page:");
    [cbn [isValid]; split; [discriminate | intros [_ [_ [H _]]]; discriminate H]|].
  destruct (JsString.startsWith (JsString.toLowerCase url) "http://");
    destruct (JsString.startsWith (JsString.toLowerCase url) "https://");
    destruct (ResourceType_eqb t CUSTOM_NODE);
    destruct (JsString.startsWith (JsString.toLowerCase url) "git@");
    destruct (JsString.includes (JsString.toLowerCase url) "github.com");
    destruct (existsb (fun host => JsString.includes (JsString.toLowerCase url) host)
                      commonModelHosts);
    destruct (modelExtension (JsString.toLowerCase url));
    cbn [negb andb orb isValid]; intuition congruence.
Qed.

Lemma verdict_shape url t :
  (isValid (isDirectDownloadUrl url t) = true /\
   reason (isDirectDownloadUrl url t) = None) \/
  (isValid (isDirectDownloadUrl url t) = false /\
   exists s, reason (isDirectDownloadUrl url t) = Some s /\ In s reasons).
Proof.
  unfold isDirectDownloadUrl, reasons.
  repeat match goal with
         | |- context [if ?b then _ else _] => destruct b
         end;
    cbn [isValid reason];
    first [ left; split; reflexivity
          | right; split; [reflexivity | eexists; split; [reflexivity|];
                                         cbn [In]; tauto] ].
Qed.

Lemma reasons_truthy s : In s reasons -> reasonOr (mkVerdict false (Some s)) = s.
Proof.
  unfold reasons. cbn [In].
  intros [<- | [<- | [<- | [<- | [<- | [<- | []]]]]]]; reflexivity.
Qed.

Lemma pushError_fold resources : forall errors,
  fold_left pushError resources errors
  = (errors ++ fold_left pushError resources [])%list.
Proof.
  induction resources as [| r rs IH]; intros errors; cbn [fold_left].
  - now rewrite app_nil_r.
  - rewrite IH, (IH (pushError [] r)). unfold pushError.
    destruct (negb (isValid (isDirectDownloadUrl (downloadUrl r) (type r)))).
    + rewrite <- app_assoc. reflexivity.
    + reflexivity.
Qed.

Lemma errors_resources resources :
  map fst (validationErrors resources) = filter invalid resources.
Proof.
  unfold validationErrors. induction resources as [| r rs IH]; [reflexivity|].
  cbn [fold_left filter]. rewrite pushError_fold, map_app, IH.
  unfold pushError, invalid at 2.
  destruct (negb (isValid (isDirectDownloadUrl (downloadUrl r) (type r))));
    reflexivity.
Qed.

Lemma errors_reasons resources :
  Forall (fun e =>
            reason (isDirectDownloadUrl (downloadUrl (fst e)) (type (fst e)))
            = Some (snd e) /\ snd e <> fallbackReason)
         (validationErrors resources).
Proof.
  unfold validationErrors. induction resources as [| r rs IH]; [constructor|].
  cbn [fold_left]. rewrite pushError_fold. apply Forall_app. split; [|exact IH].
  unfold pushError.
  destruct (verdict_shape (downloadUrl r) (type r))
    as [[Hv _] | [Hv [s [Hs Hin]]]]; rewrite Hv; cbn [negb app]; [constructor|].
  constructor; [|constructor]. cbn [fst snd].
  unfold reasonOr. rewrite Hs.
  pose proof (reasons_truthy s Hin) as Hr. unfold reasonOr in Hr.
  cbn [reason] in Hr. rewrite Hr. split; [reflexivity|].
  unfold reasons in Hin. cbn [In] in Hin.
  destruct Hin as [<- | [<- | [<- | [<- | [<- | [<- | []]]]]]]; discriminate.
Qed.

(** X10.  The errors of the validation effect are the resources whose URL
    is refused, in the order of the resources, each with the reason of its
    own verdict, never with the fallback text; the warning is shown exactly
    when it is enabled and some resource's URL is refused. *)
Theorem validation_errors_are_the_refused resources :
  map fst (validationErrors resources) = filter invalid resources /\
  Forall (fun e =>
            reason (isDirectDownloadUrl (downloadUrl (fst e)) (type (fst e)))
            = Some (snd e) /\ snd e <> fallbackReason)
         (validationErrors resources) /\
  (forall enabled,
      warningShown enabled resources = true <->
      enabled = true /\ exists r, In r resources /\ invalid r = true).
Proof.
  split; [apply errors_resources|]. split; [apply errors_reasons|].
  intros enabled. unfold warningShown.
  rewrite <- (length_map fst), errors_resources. split.
  - intros H. apply andb_true_iff in H. destruct H as [He Hl]. split; [exact He|].
    apply Nat.ltb_lt in Hl.
    destruct (filter invalid resources) as [| r l] eqn:Hf; [simpl in Hl; lia|].
    assert (Hin : In r (filter invalid resources)) by (rewrite Hf; now left).
    apply filter_In in Hin. now exists r.
  - intros [-> [r [Hin Hr]]]. cbn [andb]. apply Nat.ltb_lt.
    assert (Hf : In r (filter invalid resources)) by (apply filter_In; now split).
    destruct (filter invalid resources); [destruct Hf | simpl; lia].
Qed.

End ValidationExtras.

(* ===================================================================== *)
(** ** More on the folder name of a repository *)
(* ===================================================================== *)

Module RepoFolderExtras.
Import ScriptPreview ScriptPreview.Regex TextNotions Examples.

Lemma allChars_app P a b :
  allChars P (a ++ b) = allChars P a && allChars P b.
Proof.
  induction a as [| c a IH]; cbn [append allChars]; [reflexivity|].
  now rewrite IH, andb_assoc.
Qed.

Lemma allChars_weaken (P Q : ascii -> bool) s :
  (forall c, P c = true -> Q c = true) ->
  allChars P s = true -> allChars Q s = true.
Proof.
  intros HPQ. induction s as [| c s IH]; cbn [allChars]; [reflexivity|].
  intros H. apply andb_true_iff in H. destruct H as [Hc Hs].
  now rewrite (HPQ c Hc), IH.
Qed.

Lemma allChars_prefix P s : forall n,
  allChars P s = true -> allChars P (String.substring 0 n s) = true.
Proof.
  induction s as [| c s IH]; intros n H.
  - now destruct n.
  - cbn [allChars] in H. apply andb_true_iff in H. destruct H as [Hc Hs].
    destruct n as [| n]; cbn [String.substring allChars]; [reflexivity|].
    now rewrite Hc, IH.
Qed.

Lemma groupChar_notSlash c : groupChar c = true -> notSlash c = true.
Proof.
  unfold groupChar, notSlash. intros H. apply andb_true_iff in H. tauto.
Qed.

Lemma append_nonempty a c b : a ++ String c b <> EmptyString.
Proof. destruct a; discriminate. Qed.

Lemma groupMore_unfold g c t :
  groupMore g c t
  = if groupChar c then
      if gitEnd t then Some (g ++ String c EmptyString)
      else match t with
           | EmptyString => None
           | String c' t' => groupMore (g ++ String c EmptyString) c' t'
           end
    else None.
Proof. destruct t; reflexivity. Qed.

Lemma groupMore_segment t : forall g c r,
  allChars groupChar g = true ->
  groupMore g c t = Some r ->
  r <> EmptyString /\ allChars groupChar r = true.
Proof.
  induction t as [| c' t IH]; intros g c r Hg H;
    rewrite groupMore_unfold in H;
    destruct (groupChar c) eqn:Hc; try discriminate H;
    assert (Hg' : allChars groupChar (g ++ String c EmptyString) = true)
      by (rewrite allChars_app, Hg; cbn [allChars]; now rewrite Hc).
  - destruct (gitEnd EmptyString); [|discriminate H].
    injection H as <-. split; [apply append_nonempty | exact Hg'].
  - destruct (gitEnd (String c' t)).
    + injection H as <-. split; [apply append_nonempty | exact Hg'].
    + now apply (IH _ c' r Hg').
Qed.

Lemma group_segment t r : group t = Some r -> segment r.
Proof.
  unfold group. destruct t as [| c t]; [discriminate|]. intros H.
  destruct (groupMore_segment t EmptyString c r eq_refl H) as [Hne Hall].
  split; [exact Hne|]. exact (allChars_weaken _ _ r groupChar_notSlash Hall).
Qed.

Lemma lazyThenSlash_segment t r : lazyThenSlash t = Some r -> segment r.
Proof.
  induction t as [| c t IH]; cbn [lazyThenSlash]; [discriminate|].
  destruct (Ascii.eqb c "/").
  - destruct (group t) as [g|] eqn:Hg.
    + intros H. injection H as <-. now apply (group_segment t).
    + destruct (lineTerminator c); [discriminate | exact IH].
  - destruct (lineTerminator c); [discriminate | exact IH].
Qed.

(** What a search returns is what the matcher returns somewhere. *)
Lemma search_result (P : string -> Prop) m t r :
  (forall t' r', m t' = Some r' -> P r') -> search m t = Some r -> P r.
Proof.
  intros Hm. induction t as [| c t IH]; cbn [search].
  - destruct (m EmptyString) as [g|] eqn:Hg; [|discriminate].
    intros H. injection H as <-. now apply (Hm EmptyString).
  - destruct (m (String c t)) as [g|] eqn:Hg; [|exact IH].
    intros H. injection H as <-. now apply (Hm (String c t)).
Qed.

Lemma andThen_result (P : string -> Prop) a k r :
  (forall t' r', k t' = Some r' -> P r') -> andThen a k = Some r -> P r.
Proof. intros Hk. destruct a as [t|]; [apply Hk | discriminate]. Qed.

Lemma optional_result (P : string -> Prop) lit k t r :
  (forall t' r', k t' = Some r' -> P r') -> optional lit k t = Some r -> P r.
Proof.
  intros Hk. unfold optional. destruct (literal lit t) as [t'|]; [|apply Hk].
  destruct (k t') as [g|] eqn:Hg; [|apply Hk].
  intros H. injection H as <-. now apply (Hk t').
Qed.

Lemma sshMatch_segment url r : sshMatch url = Some r -> segment r.
Proof.
  unfold sshMatch. apply search_result. intros t' r'.
  apply andThen_result. exact lazyThenSlash_segment.
Qed.

Lemma httpsMatch_segment url r : httpsMatch url = Some r -> segment r.
Proof.
  unfold httpsMatch. apply search_result. intros t' r'.
  apply andThen_result. intros t1 r1. apply optional_result. intros t2 r2.
  apply andThen_result. intros t3 r3. apply optional_result. intros t4 r4.
  apply andThen_result. exact lazyThenSlash_segment.
Qed.

Lemma splitAux_pieces s : forall cur,
  allChars notSlash cur = true ->
  Forall (fun p => allChars notSlash p = true) (JsString.splitAux "/" s cur).
Proof.
  induction s as [| c s IH]; intros cur Hcur; cbn [JsString.splitAux].
  - now constructor.
  - destruct (Ascii.eqb c "/") eqn:Hc.
    + constructor; [exact Hcur | now apply IH].
    + apply IH. rewrite allChars_app, Hcur. cbn [allChars].
      unfold notSlash. now rewrite Hc.
Qed.

Lemma lastOf_In l s : lastOf l = Some s -> In s l.
Proof. unfold lastOf. apply nth_error_In. Qed.

Lemma folderOf_segment seg :
  (forall s, seg = Some s -> allChars notSlash s = true) ->
  segment (folderOf seg).
Proof.
  intros Hseg. unfold folderOf. destruct seg as [s|]; [|split; [discriminate | reflexivity]].
  specialize (Hseg s eq_refl).
  destruct (JsString.truthy s && JsString.endsWith s ".git").
  - destruct (JsString.truthy (JsString.dropEnd 4 s)) eqn:Ht.
    + split; [now destruct (JsString.dropEnd 4 s) |].
      unfold JsString.dropEnd. now apply allChars_prefix.
    + split; [discriminate | reflexivity].
  - destruct (JsString.truthy s) eqn:Ht.
    + split; [now destruct s | exact Hseg].
    + split; [discriminate | reflexivity].
Qed.

(** X11.  Whatever the URL, and whatever [new URL] makes of it, the folder
    name is not empty and holds no slash. *)
Theorem repo_folder_is_one_segment URL_pathname url :
  getRepoFolderName URL_pathname url <> EmptyString /\
  allChars notSlash (getRepoFolderName URL_pathname url) = true.
Proof.
  change (segment (getRepoFolderName URL_pathname url)).
  unfold getRepoFolderName.
  destruct (sshMatch url) as [g|] eqn:Hs; [now apply (sshMatch_segment url)|].
  destruct (httpsMatch url) as [g|] eqn:Hh; [now apply (httpsMatch_segment url)|].
  destruct (URL_pathname url) as [pathname|].
  - apply folderOf_segment. intros s Hlast. apply lastOf_In in Hlast.
    apply filter_In in Hlast. destruct Hlast as [Hin _].
    pose proof (splitAux_pieces pathname EmptyString eq_refl) as Hall.
    rewrite Forall_forall in Hall. now apply Hall.
  - apply folderOf_segment. intros s Hlast. apply lastOf_In in Hlast.
    pose proof (splitAux_pieces url EmptyString eq_refl) as Hall.
    rewrite Forall_forall in Hall. now apply Hall.
Qed.

(** *** The two GitHub forms *)

Lemma append_assoc_s (a b c : string) : (a ++ b) ++ c = a ++ (b ++ c).
Proof. induction a as [| x a IH]; cbn [append]; [reflexivity | now rewrite IH]. Qed.

Lemma lowerChar_slash c a :
  Ascii.eqb (JsString.lowerChar c) a = true -> a <> "/"%char ->
  notSlash c = true.
Proof.
  intros H Ha. unfold notSlash. destruct (Ascii.eqb c "/") eqn:Hc; [|reflexivity].
  apply Ascii.eqb_eq in Hc. subst c. apply Ascii.eqb_eq in H.
  exfalso. apply Ha. rewrite <- H. reflexivity.
Qed.

Lemma lowerChar_dot c :
  Ascii.eqb (JsString.lowerChar c) "." = true -> c = "."%char.
Proof.
  destruct c as [[] [] [] [] [] [] [] []]; intros H;
    first [reflexivity | vm_compute in H; discriminate H].
Qed.

Lemma gitEnd_head c t : gitEnd (String c t) = true -> c = "."%char.
Proof.
  unfold gitEnd, optional. cbn [literal].
  destruct (Ascii.eqb (JsString.lowerChar c) ".") eqn:Hc;
    [intros _; now apply lowerChar_dot | discriminate].
Qed.

Lemma gitEnd_no_slash t : gitEnd t = true -> allChars notSlash t = true.
Proof.
  unfold gitEnd, optional.
  destruct t as [| c1 [| c2 [| c3 [| c4 [| c5 t]]]]]; cbn [literal];
    try reflexivity;
    repeat match goal with
           | |- context [Ascii.eqb (JsString.lowerChar ?c) ?a] =>
               let H := fresh "H" in
               destruct (Ascii.eqb (JsString.lowerChar c) a) eqn:H;
               [apply lowerChar_slash in H; [|discriminate] |]
           end;
    try discriminate.
  intros _. cbn [allChars].
  repeat match goal with H : notSlash _ = true |- _ => rewrite H; clear H end.
  reflexivity.
Qed.

Lemma groupMore_repo sfx : gitEnd sfx = true -> forall r g c,
  allChars groupChar (String c r) = true ->
  groupMore g c (r ++ sfx) = Some (g ++ String c r).
Proof.
  intros Hsfx. induction r as [| c' r IH]; intros g c Hall;
    cbn [allChars] in Hall; apply andb_true_iff in Hall; destruct Hall as [Hc Hr];
    rewrite groupMore_unfold, Hc.
  - cbn [append]. now rewrite Hsfx.
  - cbn [append].
    destruct (gitEnd (String c' (r ++ sfx))) eqn:Hg.
    + apply gitEnd_head in Hg. subst c'. discriminate Hr.
    + rewrite (IH _ c' Hr), append_assoc_s. reflexivity.
Qed.

Lemma group_repo repo sfx :
  repo <> EmptyString -> allChars groupChar repo = true -> gitEnd sfx = true ->
  group (repo ++ sfx) = Some repo.
Proof.
  intros Hne Hall Hsfx. destruct repo as [| c r]; [now destruct Hne|].
  cbn [append group]. now rewrite (groupMore_repo sfx Hsfx r EmptyString c Hall).
Qed.

Lemma groupMore_slash x y : forall g c,
  groupMore g c (x ++ String "/" y) = None.
Proof.
  induction x as [| c' x IH]; intros g c; rewrite groupMore_unfold;
    destruct (groupChar c); try reflexivity; cbn [append].
  - destruct (gitEnd (String "/" y)) eqn:Hg;
      [apply gitEnd_head in Hg; discriminate Hg|].
    rewrite groupMore_unfold. reflexivity.
  - destruct (gitEnd (String c' (x ++ String "/" y))) eqn:Hg; [|apply IH].
    apply gitEnd_no_slash in Hg. cbn [allChars] in Hg.
    rewrite allChars_app in Hg. cbn [allChars] in Hg.
    rewrite !andb_false_r in Hg. discriminate Hg.
Qed.

Lemma group_slash x y : group (x ++ String "/" y) = None.
Proof.
  destruct x as [| c x]; cbn [append group].
  - rewrite groupMore_unfold. reflexivity.
  - apply groupMore_slash.
Qed.

Lemma lazyThenSlash_owner owner rest r :
  allChars notTerminator owner = true ->
  group rest = Some r ->
  lazyThenSlash (owner ++ String "/" rest) = Some r.
Proof.
  intros Howner Hrest. induction owner as [| c o IH]; cbn [append lazyThenSlash].
  - cbn [Ascii.eqb Bool.eqb]. now rewrite Hrest.
  - cbn [allChars] in Howner. apply andb_true_iff in Howner.
    destruct Howner as [Hc Ho]. unfold notTerminator in Hc.
    apply negb_true_iff in Hc. rewrite Hc, (IH Ho).
    destruct (Ascii.eqb c "/"); [now rewrite group_slash | reflexivity].
Qed.

Lemma search_first m t r : m t = Some r -> search m t = Some r.
Proof. intros H. destruct t; cbn [search]; now rewrite H. Qed.

Lemma gitEnd_suffix sfx :
  sfx = EmptyString \/ sfx = ".git" -> gitEnd sfx = true.
Proof. intros [-> | ->]; reflexivity. Qed.

(** X12.  For the SSH form [git@github.com:owner/repo] or
    [git@github.com:owner/repo.git], where the owner part holds no line
    terminator and the repository name is not empty and holds neither a
    slash nor a dot, the folder name is the repository name. *)
Theorem repo_folder_of_ssh_url URL_pathname owner repo sfx :
  allChars notTerminator owner = true ->
  repo <> EmptyString -> allChars groupChar repo = true ->
  sfx = EmptyString \/ sfx = ".git" ->
  getRepoFolderName URL_pathname
    ("git@github.com:" ++ owner ++ "/" ++ repo ++ sfx) = repo.
Proof.
  intros Howner Hne Hrepo Hsfx. unfold getRepoFolderName.
  assert (Hm : sshMatch ("git@github.com:" ++ owner ++ "/" ++ repo ++ sfx)
               = Some repo).
  { unfold sshMatch. apply search_first.
    change (lazyThenSlash (owner ++ String "/" (repo ++ sfx)) = Some repo).
    apply lazyThenSlash_owner; [exact Howner|].
    apply group_repo; auto using gitEnd_suffix. }
  now rewrite Hm.
Qed.

Lemma repo_folder_of_ssh_url_witness :
  getRepoFolderName noURL "git@github.com:foo/bar.git" = "bar".
Proof.
  apply (repo_folder_of_ssh_url noURL "foo" "bar" ".git");
    [reflexivity | discriminate | reflexivity | now right].
Defined.

(** What a match captures, read off the text it matched. *)
Lemma groupMore_shape t : forall g c r,
  groupMore g c t = Some r ->
  exists m e, r = g ++ String c m /\ t = m ++ e /\ gitEnd e = true /\
              allChars groupChar (String c m) = true.
Proof.
  induction t as [| c' t IH]; intros g c r H; rewrite groupMore_unfold in H;
    destruct (groupChar c) eqn:Hc; try discriminate H.
  - destruct (gitEnd EmptyString) eqn:Hg; [|discriminate H]. injection H as <-.
    exists EmptyString, EmptyString. cbn [allChars]. now rewrite Hc.
  - destruct (gitEnd (String c' t)) eqn:Hg.
    + injection H as <-. exists EmptyString, (String c' t).
      cbn [allChars append]. now rewrite Hc.
    + destruct (IH _ c' r H) as [m [e [Hr [Ht [He Hall]]]]].
      exists (String c' m), e. rewrite Hr, append_assoc_s. cbn [append].
      repeat split; [now rewrite Ht | exact He |].
      cbn [allChars] in *. now rewrite Hc.
Qed.

Lemma group_shape t r :
  group t = Some r ->
  exists e, t = r ++ e /\ gitEnd e = true /\
            allChars groupChar r = true /\ r <> EmptyString.
Proof.
  unfold group. destruct t as [| c t]; [discriminate|]. intros H.
  destruct (groupMore_shape t EmptyString c r H) as [m [e [Hr [Ht [He Hall]]]]].
  cbn [append] in Hr. subst r. exists e. cbn [append].
  repeat split; [now rewrite Ht | exact He | exact Hall | discriminate].
Qed.

Lemma lazyThenSlash_shape t r :
  lazyThenSlash t = Some r ->
  exists a e, t = a ++ String "/" (r ++ e) /\ gitEnd e = true /\
              allChars groupChar r = true /\ r <> EmptyString.
Proof.
  induction t as [| c t IH]; cbn [lazyThenSlash]; [discriminate|].
  assert (Hrec : lazyThenSlash t = Some r ->
                 exists a e, String c t = a ++ String "/" (r ++ e) /\
                             gitEnd e = true /\
                             allChars groupChar r = true /\ r <> EmptyString).
  { intros H. destruct (IH H) as [a [e [Ht Hrest]]].
    exists (String c a), e. cbn [append]. now rewrite Ht. }
  destruct (Ascii.eqb c "/") eqn:Hc.
  - destruct (group t) as [g|] eqn:Hg.
    + intros H. injection H as <-. apply Ascii.eqb_eq in Hc. subst c.
      destruct (group_shape t g Hg) as [e [Ht Hrest]].
      exists EmptyString, e. cbn [append]. now rewrite Ht.
    + destruct (lineTerminator c); [discriminate | exact Hrec].
  - destruct (lineTerminator c); [discriminate | exact Hrec].
Qed.

Lemma literal_suffix p : forall t t',
  literal p t = Some t' -> exists q, t = q ++ t'.
Proof.
  induction p as [| a p IH]; intros t t'; cbn [literal].
  - intros H. injection H as <-. now exists EmptyString.
  - destruct t as [| b t]; [discriminate|].
    destruct (Ascii.eqb (JsString.lowerChar b) a); [|discriminate].
    intros H. destruct (IH t t' H) as [q Hq]. exists (String b q).
    cbn [append]. now rewrite Hq.
Qed.

Lemma ends_longer q r t : ends r t -> ends r (q ++ t).
Proof.
  intros [a [e [Ht Hrest]]]. exists (q ++ a), e.
  now rewrite Ht, append_assoc_s.
Qed.

Lemma search_ends m t r :
  (forall t' r', m t' = Some r' -> ends r' t') ->
  search m t = Some r -> ends r t.
Proof.
  intros Hm. induction t as [| c t IH]; cbn [search].
  - destruct (m EmptyString) as [g|] eqn:Hg; [|discriminate].
    intros H. injection H as <-. now apply Hm.
  - destruct (m (String c t)) as [g|] eqn:Hg.
    + intros H. injection H as <-. now apply Hm.
    + intros H. apply (ends_longer (String c EmptyString) r t). now apply IH.
Qed.

Lemma sshMatch_ends url r : sshMatch url = Some r -> ends r url.
Proof.
  unfold sshMatch. apply search_ends. intros t' r' H.
  destruct (literal "git@github.com:" t') as [t''|] eqn:Hl; [|discriminate H].
  cbn [andThen] in H. destruct (literal_suffix _ _ _ Hl) as [q ->].
  apply ends_longer. now apply lazyThenSlash_shape.
Qed.

(** The name that a text ends in is determined by the text. *)
Lemma last_slash a : forall a' u u',
  allChars notSlash u = true -> allChars notSlash u' = true ->
  a ++ String "/" u = a' ++ String "/" u' -> u = u'.
Proof.
  induction a as [| c a IH]; intros a' u u' Hu Hu' H.
  - destruct a' as [| c' a']; cbn [append] in H; [now injection H|].
    injection H as _ H. subst u. rewrite allChars_app in Hu.
    cbn [allChars] in Hu. rewrite !andb_false_r in Hu. discriminate Hu.
  - destruct a' as [| c' a']; cbn [append] in H.
    + injection H as _ H. subst u'. rewrite allChars_app in Hu'.
      cbn [allChars] in Hu'. rewrite !andb_false_r in Hu'. discriminate Hu'.
    + injection H as _ H. now apply (IH a').
Qed.

Lemma gitEnd_then_dot e r c :
  gitEnd e = true -> e = String c r -> groupChar c = false.
Proof. intros He ->. apply gitEnd_head in He. now subst c. Qed.

Lemma name_before_suffix r : forall r' e e',
  allChars groupChar r = true -> allChars groupChar r' = true ->
  gitEnd e = true -> gitEnd e' = true ->
  r ++ e = r' ++ e' -> r = r'.
Proof.
  induction r as [| c r IH]; intros r' e e' Hr Hr' He He' H.
  - destruct r' as [| c' r']; [reflexivity|]. cbn [append] in H.
    cbn [allChars] in Hr'. apply andb_true_iff in Hr'. destruct Hr' as [Hc' _].
    rewrite (gitEnd_then_dot e _ c' He H) in Hc'. discriminate Hc'.
  - destruct r' as [| c' r']; cbn [append] in H.
    + cbn [allChars] in Hr. apply andb_true_iff in Hr. destruct Hr as [Hc _].
      rewrite (gitEnd_then_dot e' _ c He' (eq_sym H)) in Hc. discriminate Hc.
    + injection H as -> H. f_equal.
      cbn [allChars] in Hr, Hr'. apply andb_true_iff in Hr, Hr'.
      now apply (IH r' e e').
Qed.

Lemma ends_unique r r' t : ends r t -> ends r' t -> r = r'.
Proof.
  intros [a [e [Ht [He [Hr _]]]]] [a' [e' [Ht' [He' [Hr' _]]]]].
  rewrite Ht in Ht'.
  assert (Hu : r ++ e = r' ++ e').
  { apply (last_slash a a'); [| | exact Ht'];
      rewrite allChars_app;
      [ rewrite (allChars_weaken _ _ r groupChar_notSlash Hr),
                (gitEnd_no_slash e He)
      | rewrite (allChars_weaken _ _ r' groupChar_notSlash Hr'),
                (gitEnd_no_slash e' He') ]; reflexivity. }
  now apply (name_before_suffix r r' e e').
Qed.

Lemma httpsMatch_first prefix rest r :
  In prefix [ "http://github.com/"; "https://github.com/";
              "http://www.github.com/"; "https://www.github.com/" ] ->
  lazyThenSlash rest = Some r ->
  httpsMatch (prefix ++ rest) = Some r.
Proof.
  intros Hp H. unfold httpsMatch. apply search_first. cbn [In] in Hp.
  revert H. generalize lazyThenSlash. intros k H.
  destruct Hp as [<- | [<- | [<- | [<- | []]]]];
    vm_compute; rewrite H; reflexivity.
Qed.

(** X13.  For the HTTPS form [http(s)://(www.)github.com/owner/repo] or
    the same with [.git], where the owner part holds no line terminator
    and the repository name is not empty and holds neither a slash nor a
    dot, the folder name is the repository name. *)
Theorem repo_folder_of_https_url URL_pathname prefix owner repo sfx :
  In prefix [ "http://github.com/"; "https://github.com/";
              "http://www.github.com/"; "https://www.github.com/" ] ->
  allChars notTerminator owner = true ->
  repo <> EmptyString -> allChars groupChar repo = true ->
  sfx = EmptyString \/ sfx = ".git" ->
  getRepoFolderName URL_pathname (prefix ++ owner ++ "/" ++ repo ++ sfx) = repo.
Proof.
  intros Hp Howner Hne Hrepo Hsfx. unfold getRepoFolderName.
  assert (Hlazy : lazyThenSlash (owner ++ String "/" (repo ++ sfx)) = Some repo).
  { apply lazyThenSlash_owner; [exact Howner|].
    apply group_repo; auto using gitEnd_suffix. }
  assert (Hh : httpsMatch (prefix ++ owner ++ "/" ++ repo ++ sfx) = Some repo)
    by (apply httpsMatch_first; assumption).
  destruct (sshMatch (prefix ++ owner ++ "/" ++ repo ++ sfx)) as [g|] eqn:Hs;
    [| now rewrite Hh].
  apply sshMatch_ends in Hs.
  apply (ends_unique g repo (prefix ++ owner ++ "/" ++ repo ++ sfx) Hs).
  apply ends_longer. apply lazyThenSlash_shape. exact Hlazy.
Qed.

Lemma repo_folder_of_https_url_witness :
  getRepoFolderName noURL "https://github.com/foo/bar" = "bar".
Proof.
  apply (repo_folder_of_https_url noURL "https://github.com/" "foo" "bar" "");
    [right; now left | reflexivity | discriminate | reflexivity | now left].
Defined.

End RepoFolderExtras.

(* ===================================================================== *)
(** ** More on the download history *)
(* ===================================================================== *)

Module HistoryExtras.
Import App Examples AppFacts.

Lemma mem_In x l : JsString.mem x l = true <-> In x l.
Proof.
  unfold JsString.mem. rewrite existsb_exists. split.
  - intros [y [Hin Heq]]. apply String.eqb_eq in Heq. now subst y.
  - intros Hin. exists x. split; [exact Hin | apply String.eqb_refl].
Qed.

Lemma filter_none {A} (f : A -> bool) l :
  (forall x, In x l -> f x = false) -> filter f l = [].
Proof.
  induction l as [| x l IH]; intros H; [reflexivity|].
  cbn [filter]. rewrite (H x (or_introl eq_refl)). apply IH.
  intros y Hy. apply H. now right.
Qed.

(** X14.  Committing the same resources once more, at whatever time,
    leaves the history as the first commit made it. *)
Theorem recommit_changes_nothing resources timestamp timestamp' prev :
  addToHistory resources timestamp' (addToHistory resources timestamp prev)
  = addToHistory resources timestamp prev.
Proof.
  unfold addToHistory at 1.
  replace (filteredNew resources timestamp' (addToHistory resources timestamp prev))
    with (@nil HistoryItem); [reflexivity|].
  symmetry. unfold filteredNew at 1. apply filter_none.
  intros h Hin. unfold newItems in Hin. apply in_map_iff in Hin.
  destruct Hin as [r [<- Hr]]. unfold h_downloadUrl at 1 2. cbn [h_resource].
  destruct (JsString.truthy (downloadUrl r)) eqn:Ht; [|reflexivity].
  cbn [andb]. apply negb_false_iff. apply mem_In.
  unfold existingUrls, addToHistory. rewrite map_app. apply in_or_app.
  destruct (JsString.mem (downloadUrl r) (existingUrls prev)) eqn:Hm.
  - right. now apply mem_In.
  - left. apply in_map_iff. exists (mkHistory r timestamp). split; [reflexivity|].
    unfold filteredNew. apply filter_In. split.
    + unfold newItems.
      now apply (in_map (fun r0 => mkHistory r0 timestamp)).
    + unfold h_downloadUrl. cbn [h_resource]. now rewrite Ht, Hm.
Qed.

Lemma NoDup_map_filter_weaken {A B} (f : A -> B) (p q : A -> bool) l :
  (forall x, p x = true -> q x = true) ->
  NoDup (map f (filter q l)) -> NoDup (map f (filter p l)).
Proof.
  intros Hpq. induction l as [| x l IH]; cbn [filter]; [intros; constructor|].
  destruct (p x) eqn:Hp.
  - rewrite (Hpq x Hp). cbn [map]. intros Hnd.
    inversion Hnd as [| y ys Hnot Hrest]; subst. constructor; [|now apply IH].
    intros Hin. apply Hnot. apply in_map_iff in Hin.
    destruct Hin as [z [Hz Hin]]. apply filter_In in Hin.
    destruct Hin as [Hin Hpz]. apply in_map_iff. exists z. split; [exact Hz|].
    apply filter_In. split; [exact Hin | now apply Hpq].
  - destruct (q x); [|exact IH]. cbn [map]. intros Hnd.
    inversion Hnd; subst. now apply IH.
Qed.

(** X15.  When the stored entries have pairwise distinct download URLs and
    so have the committed resources that have a URL, the entries after the
    commit have pairwise distinct download URLs. *)
Theorem commit_of_distinct_urls resources timestamp prev :
  NoDup (map h_downloadUrl prev) ->
  NoDup (map downloadUrl
             (filter (fun r => JsString.truthy (downloadUrl r)) resources)) ->
  NoDup (map h_downloadUrl (addToHistory resources timestamp prev)).
Proof.
  intros Hprev Hnew. unfold addToHistory. rewrite map_app.
  assert (Hmap : map h_downloadUrl (filteredNew resources timestamp prev)
                 = map downloadUrl
                       (filter (fun r => JsString.truthy (downloadUrl r) &&
                                         negb (JsString.mem (downloadUrl r)
                                                            (existingUrls prev)))
                               resources)).
  { unfold filteredNew, newItems. clear.
    induction resources as [| r rs IH]; [reflexivity|].
    cbn [map filter].
    change (h_downloadUrl (mkHistory r timestamp)) with (downloadUrl r).
    destruct (JsString.truthy (downloadUrl r) &&
              negb (JsString.mem (downloadUrl r) (existingUrls prev)));
      cbn [map]; rewrite IH; reflexivity. }
  apply NoDup_app.
  - rewrite Hmap. revert Hnew. apply NoDup_map_filter_weaken.
    intros x Hx. apply andb_true_iff in Hx. tauto.
  - exact Hprev.
  - intros u Hu Hin. rewrite Hmap in Hu. apply in_map_iff in Hu.
    destruct Hu as [r [<- Hr]]. apply filter_In in Hr. destruct Hr as [_ Hr].
    apply andb_true_iff in Hr. destruct Hr as [_ Hr].
    apply negb_true_iff in Hr. apply mem_In in Hin.
    unfold existingUrls in Hr. congruence.
Qed.

Lemma commit_of_distinct_urls_witness :
  NoDup (map h_downloadUrl [mkHistory modelSd "2025-12-24T08:30:00.000Z"]) /\
  NoDup (map downloadUrl
             (filter (fun r => JsString.truthy (downloadUrl r))
                     [nodeBar; modelSd; noLink; dupA])) /\
  addToHistory [nodeBar; modelSd; noLink; dupA] "2026-01-01T00:00:00.000Z"
               [mkHistory modelSd "2025-12-24T08:30:00.000Z"]
  = [mkHistory nodeBar "2026-01-01T00:00:00.000Z";
     mkHistory dupA "2026-01-01T00:00:00.000Z";
     mkHistory modelSd "2025-12-24T08:30:00.000Z"] /\
  NoDup (map h_downloadUrl
             (addToHistory [nodeBar; modelSd; noLink; dupA]
                           "2026-01-01T00:00:00.000Z"
                           [mkHistory modelSd "2025-12-24T08:30:00.000Z"])).
Proof.
  assert (H0 : NoDup (map h_downloadUrl
                          [mkHistory modelSd "2025-12-24T08:30:00.000Z"]))
    by (constructor; [intros [] | constructor]).
  assert (H1 : NoDup (map downloadUrl
                          (filter (fun r => JsString.truthy (downloadUrl r))
                                  [nodeBar; modelSd; noLink; dupA]))).
  { vm_compute.
    repeat (constructor; [cbn [In]; intuition discriminate|]). constructor. }
  split; [exact H0|]. split; [exact H1|]. split; [reflexivity|].
  apply (commit_of_distinct_urls [nodeBar; modelSd; noLink; dupA]
                                 "2026-01-01T00:00:00.000Z"
                                 [mkHistory modelSd "2025-12-24T08:30:00.000Z"]
                                 H0 H1).
Defined.

End HistoryExtras.

(* ===================================================================== *)
(** ** The date in the emitted script *)
(* ===================================================================== *)

Module ScriptDateExtras.
Import ScriptPreview ScriptBlocks TextNotions Examples ScriptPreviewFacts.

Lemma splitAux_first d rest : forall cur,
  allChars notT d = true ->
  JsString.splitAux "T" (d ++ String "T" rest) cur
  = (cur ++ d) :: JsString.splitAux "T" rest EmptyString.
Proof.
  induction d as [| c d IH]; intros cur Hd; cbn [append JsString.splitAux].
  - cbn [Ascii.eqb Bool.eqb]. now rewrite append_nil_r.
  - cbn [allChars] in Hd. apply andb_true_iff in Hd. destruct Hd as [Hc Hd].
    unfold notT in Hc. apply negb_true_iff in Hc. rewrite Hc, (IH _ Hd).
    now rewrite append_assoc.
Qed.

(** X16.  The script depends on the moment of its generation through the
    date only: for a moment written as a date without the letter T, the
    letter T and a time, the text is the header of that date, the blocks
    and the trailer, whatever the time. *)
Theorem script_depends_on_the_date_only URL_pathname format date time resources :
  allChars notT date = true ->
  generateScript URL_pathname format (date ++ "T" ++ time) resources
  = header format date
    ++ concatAll (blocks URL_pathname format resources)
    ++ trailer format.
Proof.
  intros Hd. unfold generateScript. cbv zeta.
  rewrite fold_perResource, append_assoc. unfold JsString.split. cbn [append].
  now rewrite (splitAux_first date time EmptyString Hd).
Qed.

Lemma script_depends_on_the_date_only_witness :
  generateScript noURL bash ("2026-11-03" ++ "T" ++ "10:15:00.000Z") [noLink]
  = header bash "2026-11-03" ++ concatAll (blocks noURL bash [noLink])
    ++ trailer bash.
Proof.
  apply (script_depends_on_the_date_only noURL bash "2026-11-03" "10:15:00.000Z").
  reflexivity.
Defined.

End ScriptDateExtras.

(* ===================================================================== *)
(** ** From a loaded file to the review *)
(* ===================================================================== *)

Module PipelineExtras.
Import AppPipeline Examples MoreExamples.

Section Outcome.
Variable scanUUID : nat -> string.
Variable resolveUUID : nat -> string.
Variable JSON_parse : string -> option JSON.
Variable API_KEY : string.
Variable ai : nat -> list ScannedItem -> GeminiService.Outcome.
Variable typeErrorMessage : string.
Variable apiRejection : Rejection.

Let load := handleFileLoaded scanUUID resolveUUID JSON_parse API_KEY ai
                             typeErrorMessage apiRejection.
Let scan := ComfyParser.parseWorkflowData scanUUID JSON_parse.
Let resolve := GeminiService.analyzeResourcesWithGemini resolveUUID API_KEY ai.


(** Reading the message throws only on a rejection with [null] or
    [undefined]. *)
Lemma message_defined e :
  message typeErrorMessage apiRejection e = None ->
  e = FromResolver GeminiService.ApiError /\ apiRejection = Nullish.
Proof.
  destruct e as [[] | | []]; cbn [message]; try discriminate.
  destruct apiRejection; [auto | discriminate].
Qed.

Lemma load_cases content name size m :
  (exists items out,
      scan content = inr items /\ items <> [] /\ resolve items = inr out /\
      load content name size m
      = mkModel REVIEW out
                (Some (mkMetadata name size (List.length items))) (errorMsg m)) \/
  (exists e msg,
      message typeErrorMessage apiRejection e = Some msg /\
      load content name size m
      = mkModel ERROR (resources m)
                (match scan content with
                 | inr items => Some (mkMetadata name size (List.length items))
                 | inl _ => metadata m
                 end)
                (errorText msg) /\
      match scan content with
      | inl pe => e = FromParser pe
      | inr [] => e = NoResources
      | inr items => exists re, resolve items = inl re /\ e = FromResolver re
      end) \/
  (apiRejection = Nullish /\
   exists items,
     scan content = inr items /\ items <> [] /\
     resolve items = inl GeminiService.ApiError /\
     load content name size m
     = mkModel ANALYZING_AI (resources m)
               (Some (mkMetadata name size (List.length items))) (errorMsg m)).
Proof.
  unfold load, scan, resolve, handleFileLoaded. cbv zeta.
  destruct (ComfyParser.parseWorkflowData scanUUID JSON_parse content)
    as [pe | items].
  - right. left. unfold caught.
    destruct (message typeErrorMessage apiRejection (FromParser pe))
      as [msg|] eqn:Hmsg.
    + exists (FromParser pe), msg. repeat split; first [exact Hmsg | reflexivity].
    + apply message_defined in Hmsg. destruct Hmsg as [Hmsg _]. discriminate Hmsg.
  - destruct items as [| it items].
    + right. left. exists NoResources. eexists. repeat split; reflexivity.
    + cbn [List.length Nat.eqb].
      destruct (GeminiService.analyzeResourcesWithGemini
                  resolveUUID API_KEY ai (it :: items)) as [re | out] eqn:Hr.
      * unfold caught.
        destruct (message typeErrorMessage apiRejection (FromResolver re))
          as [msg|] eqn:Hmsg.
        -- right. left. exists (FromResolver re), msg.
           split; [exact Hmsg|]. split; [reflexivity|].
           exists re. split; first [exact Hr | reflexivity].
        -- apply message_defined in Hmsg. destruct Hmsg as [Hre Hnull].
           injection Hre as ->. right. right. split; [exact Hnull|].
           exists (it :: items). split; [reflexivity|]. split; [discriminate|].
           split; first [exact Hr | reflexivity].
      * left. exists (it :: items), out.
        split; [reflexivity|]. split; [discriminate|].
        split; first [exact Hr | reflexivity].
Qed.

End Outcome.

(** X17.  When the promise of [handleFileLoaded] settles the state is
    REVIEW or ERROR, but for one case: a call of the resolver rejects with
    [null] or [undefined].  Reading [e.message] in the [catch] then throws,
    no setter is called and the state stays ANALYZING_AI, with the metadata
    of the file and the resources and error message of before.  The state
    is REVIEW exactly when the scan returns a non-empty list and the
    resolver returns; the resources are then the resolver's, the metadata
    counts the scanned items, and the error message is as before. *)
Theorem file_loaded_review scanUUID resolveUUID JSON_parse API_KEY ai
        typeErrorMessage apiRejection content name size m :
  let m' := handleFileLoaded scanUUID resolveUUID JSON_parse API_KEY ai
                             typeErrorMessage apiRejection
                             content name size m in
  let stuck items :=
    mkModel ANALYZING_AI (resources m)
            (Some (mkMetadata name size (List.length items))) (errorMsg m) in
  (appState m' = REVIEW \/ appState m' = ERROR \/
   (apiRejection = Nullish /\
    exists items,
      ComfyParser.parseWorkflowData scanUUID JSON_parse content = inr items /\
      items <> [] /\
      GeminiService.analyzeResourcesWithGemini resolveUUID API_KEY ai items
      = inl GeminiService.ApiError /\
      m' = stuck items)) /\
  (forall items,
      ComfyParser.parseWorkflowData scanUUID JSON_parse content = inr items ->
      items <> [] ->
      GeminiService.analyzeResourcesWithGemini resolveUUID API_KEY ai items
      = inl GeminiService.ApiError ->
      apiRejection = Nullish -> m' = stuck items) /\
  (appState m' = REVIEW <->
   exists items out,
     ComfyParser.parseWorkflowData scanUUID JSON_parse content = inr items /\
     items <> [] /\
     GeminiService.analyzeResourcesWithGemini resolveUUID API_KEY ai items
     = inr out /\
     m' = mkModel REVIEW out
                  (Some (mkMetadata name size (List.length items)))
                  (errorMsg m)).
Proof.
  cbv zeta. split; [|split].
  - destruct (load_cases scanUUID resolveUUID JSON_parse API_KEY ai
                         typeErrorMessage apiRejection content name size m)
      as [[items [out [Hs [Hne [Hr Hm]]]]]
         | [[e [msg [Hmsg [Hm He]]]] | [Hnull [items [Hs [Hne [Hr Hm]]]]]]].
    + left. now rewrite Hm.
    + right. left. now rewrite Hm.
    + right. right. split; [exact Hnull|]. now exists items.
  - intros items Hs Hne Hr ->. unfold handleFileLoaded. rewrite Hs. cbv zeta.
    destruct items as [| it items]; [now destruct Hne|].
    cbn [List.length Nat.eqb]. rewrite Hr. reflexivity.
  - destruct (load_cases scanUUID resolveUUID JSON_parse API_KEY ai
                         typeErrorMessage apiRejection content name size m)
      as [[items [out [Hs [Hne [Hr Hm]]]]]
         | [[e [msg [Hmsg [Hm He]]]] | [Hnull [items [Hs [Hne [Hr Hm]]]]]]];
      rewrite Hm; cbn [appState].
    + split; [intros _ | reflexivity]. now exists items, out.
    + split; [discriminate|].
      intros [items [out [Hs [Hne [Hr Heq]]]]]. discriminate Heq.
    + split; [discriminate|].
      intros [items' [out [Hs' [Hne' [Hr' Heq]]]]]. discriminate Heq.
Qed.



Lemma file_loaded_review_witness :
  appState (handleFileLoaded uuidOf uuidOf (parseOnly scenarioText scenarioDoc)
                             "key" (fun _ _ => GeminiService.NoText)
                             "TypeError" (WithMessage None)
                             scenarioText "t2i.json" 90 idle)
  = REVIEW /\
  handleFileLoaded uuidOf uuidOf (parseOnly scenarioText scenarioDoc)
                   "key" (fun _ _ => GeminiService.Rejected)
                   "TypeError" Nullish scenarioText "t2i.json" 90 idle
  = mkModel ANALYZING_AI [] (Some (mkMetadata "t2i.json" 90 1)) EmptyString.
Proof.
  split.
  - apply (file_loaded_review uuidOf uuidOf (parseOnly scenarioText scenarioDoc)
                              "key" (fun _ _ => GeminiService.NoText)
                              "TypeError" (WithMessage None)
                              scenarioText "t2i.json" 90 idle).
    eexists. eexists. repeat split; try reflexivity. discriminate.
  - apply (proj1 (proj2
             (file_loaded_review uuidOf uuidOf (parseOnly scenarioText scenarioDoc)
                                 "key" (fun _ _ => GeminiService.Rejected)
                                 "TypeError" Nullish
                                 scenarioText "t2i.json" 90 idle))
             [mkScanned "uuid-0" "v1-5-pruned.ckpt" false]);
      first [reflexivity | discriminate].
Defined.

End PipelineExtras.

(* ===================================================================== *)
(** ** Reordering by drag and drop *)
(* ===================================================================== *)

Module ReorderExtras.
Import ResourceManager Examples.

Lemma spliceStart_inside i len :
  (0 <= i <= Z.of_nat len)%Z -> spliceStart i len = Z.to_nat i.
Proof.
  intros Hi. unfold spliceStart.
  destruct (i <? 0)%Z eqn:Hneg; [apply Z.ltb_lt in Hneg; lia|].
  f_equal. lia.
Qed.

Lemma firstn_skipn_middle {A} (l : list A) i x :
  nth_error l i = Some x ->
  l = (firstn i l ++ x :: skipn (S i) l)%list.
Proof.
  revert i. induction l as [| y l IH]; intros i H.
  - destruct i; discriminate H.
  - destruct i as [| i]; cbn in *.
    + now injection H as ->.
    + f_equal. now apply IH.
Qed.

(** X19.  Dropping the resource dragged from position [i] on position
    [j], two different positions of the list, gives a permutation of the
    list in which the dragged resource stands at position [j] and the
    others keep their order; the sort order is reset and both refs are
    cleared. *)
Theorem drop_moves_the_dragged_resource rs order i j :
  (0 <= i < Z.of_nat (List.length rs))%Z ->
  (0 <= j < Z.of_nat (List.length rs))%Z ->
  i <> j ->
  exists x rest,
    nth_error rs (Z.to_nat i) = Some x /\
    rest = (firstn (Z.to_nat i) rs ++ skipn (S (Z.to_nat i)) rs)%list /\
    handleDrop (mkState (map Some rs) order (mkRefs (Some i) (Some j)))
    = mkState (map Some (firstn (Z.to_nat j) rest ++ x :: skipn (Z.to_nat j) rest))
              default (mkRefs None None) /\
    Permutation rs (firstn (Z.to_nat j) rest ++ x :: skipn (Z.to_nat j) rest) /\
    nth_error (firstn (Z.to_nat j) rest ++ x :: skipn (Z.to_nat j) rest)
              (Z.to_nat j) = Some x.
Proof.
  intros Hi Hj Hij.
  destruct (nth_error rs (Z.to_nat i)) as [x|] eqn:Hx;
    [| apply nth_error_None in Hx; lia].
  exists x, (firstn (Z.to_nat i) rs ++ skipn (S (Z.to_nat i)) rs)%list.
  set (rest := (firstn (Z.to_nat i) rs ++ skipn (S (Z.to_nat i)) rs)%list).
  assert (Hlen : List.length rest = List.length rs - 1).
  { unfold rest. rewrite length_app, length_firstn, length_skipn. lia. }
  split; [reflexivity|]. split; [reflexivity|]. split; [|split].
  - unfold handleDrop. cbn [refs draggedItemIndex dragOverItemIndex resources].
    destruct (i =? j)%Z eqn:Heq; [apply Z.eqb_eq in Heq; contradiction|].
    unfold spliceDelete. rewrite length_map, (spliceStart_inside i) by lia.
    rewrite skipn_map, firstn_map, firstn_map, skipn_map, <- map_app.
    fold rest.
    assert (Hhd : firstn 1 (skipn (Z.to_nat i) rs) = [x]).
    { rewrite (firstn_skipn_middle rs (Z.to_nat i) x Hx) at 1.
      rewrite skipn_app, length_firstn.
      replace (Z.to_nat i - Nat.min (Z.to_nat i) (List.length rs)) with 0 by lia.
      rewrite skipn_all2 by (rewrite length_firstn; lia). reflexivity. }
    rewrite Hhd. cbn [map]. unfold spliceInsert.
    rewrite length_map, (spliceStart_inside j) by lia.
    rewrite firstn_map, skipn_map.
    change (Some x :: map Some (skipn (Z.to_nat j) rest))
      with (map Some (x :: skipn (Z.to_nat j) rest)).
    now rewrite <- map_app.
  - rewrite (firstn_skipn_middle rs (Z.to_nat i) x Hx) at 1.
    apply Permutation_trans with (x :: rest).
    + unfold rest. apply Permutation_sym, Permutation_middle.
    + rewrite <- (firstn_skipn (Z.to_nat j) rest) at 1.
      apply Permutation_middle.
  - rewrite nth_error_app2 by (rewrite length_firstn; lia).
    rewrite length_firstn.
    replace (Z.to_nat j - Nat.min (Z.to_nat j) (List.length rest)) with 0 by lia.
    reflexivity.
Qed.

Lemma drop_moves_the_dragged_resource_witness :
  handleDrop (mkState (map Some [nodeBar; noLink; modelSd]) nameAsc
                      (mkRefs (Some 2%Z) (Some 0%Z)))
  = mkState (map Some [modelSd; nodeBar; noLink]) default (mkRefs None None).
Proof.
  destruct (drop_moves_the_dragged_resource
              [nodeBar; noLink; modelSd] nameAsc 2%Z 0%Z)
    as [x [rest [Hx [Hrest [Hdrop _]]]]]; [cbn; lia | cbn; lia | discriminate |].
  rewrite Hdrop, Hrest. cbn in Hx. injection Hx as <-. reflexivity.
Defined.

(** X20.  A drop with a ref that is null, or on the position the drag
    started from, changes nothing; a drop of a position at or beyond the
    end of the list puts an undefined element at the drop position and
    keeps every resource. *)
Theorem drop_edge_cases rs order :
  (forall j, handleDrop (mkState (map Some rs) order (mkRefs None j))
             = mkState (map Some rs) order (mkRefs None j)) /\
  (forall i, handleDrop (mkState (map Some rs) order (mkRefs (Some i) None))
             = mkState (map Some rs) order (mkRefs (Some i) None)) /\
  (forall i, handleDrop (mkState (map Some rs) order (mkRefs (Some i) (Some i)))
             = mkState (map Some rs) order (mkRefs (Some i) (Some i))) /\
  (forall i j,
      (Z.of_nat (List.length rs) <= i)%Z ->
      (0 <= j <= Z.of_nat (List.length rs))%Z -> i <> j ->
      resources (handleDrop (mkState (map Some rs) order
                                     (mkRefs (Some i) (Some j))))
      = (map Some (firstn (Z.to_nat j) rs) ++ None
           :: map Some (skipn (Z.to_nat j) rs))%list).
Proof.
  split; [|split; [|split]].
  - intros j. reflexivity.
  - intros i. reflexivity.
  - intros i. unfold handleDrop.
    cbn [refs draggedItemIndex dragOverItemIndex]. now rewrite Z.eqb_refl.
  - intros i j Hi Hj Hij. unfold handleDrop.
    cbn [refs draggedItemIndex dragOverItemIndex resources].
    destruct (i =? j)%Z eqn:Heq; [apply Z.eqb_eq in Heq; contradiction|].
    unfold spliceDelete. rewrite length_map.
    assert (Hs : spliceStart i (List.length rs) = List.length rs).
    { unfold spliceStart.
      destruct (i <? 0)%Z eqn:Hneg; [apply Z.ltb_lt in Hneg; lia | lia]. }
    rewrite Hs.
    rewrite (skipn_all2 (map Some rs)) by (rewrite length_map; lia).
    rewrite (skipn_all2 (n := S (List.length rs)) (map Some rs))
      by (rewrite length_map; lia).
    rewrite (firstn_all2 (map Some rs)) by (rewrite length_map; lia).
    cbn [firstn]. rewrite app_nil_r. cbv beta iota zeta. cbn [resources].
    unfold spliceInsert.
    rewrite length_map, (spliceStart_inside j) by lia.
    now rewrite firstn_map, skipn_map.
Qed.

End ReorderExtras.

(* ===================================================================== *)
(** ** Validation and the script together *)
(* ===================================================================== *)

Module ScriptAndValidation.
Import ScriptPreview ScriptBlocks ValidationNotions Examples ScriptPreviewFacts.

Lemma block_with_url URL_pathname format r :
  hasUrl r = true -> block URL_pathname format r <> EmptyString.
Proof.
  unfold hasUrl, block. intros H.
  destruct format; cbn [perResource]; unfold bashResource, batResource;
    rewrite H; cbn [negb]; cbv zeta;
    destruct (ResourceType_eqb (type r) CUSTOM_NODE);
    rewrite !append_assoc; cbn [append]; discriminate.
Qed.

Lemma valid_has_url r : invalid r = false -> hasUrl r = true.
Proof.
  unfold invalid, hasUrl, isDirectDownloadUrl. intros H.
  apply negb_false_iff in H.
  destruct (JsString.truthy (downloadUrl r)); [reflexivity|].
  discriminate H.
Qed.

(** X21.  A resource gets no block in the script exactly when its download
    URL is empty; such a resource is always refused by validation, for
    being empty or too short; and every resource that validation accepts
    gets a block, in both dialects. *)
Theorem skipped_resources_are_refused URL_pathname format r :
  (block URL_pathname format r = EmptyString <-> downloadUrl r = EmptyString) /\
  (downloadUrl r = EmptyString ->
   isDirectDownloadUrl (downloadUrl r) (type r)
   = mkVerdict false (Some "URL is empty or too short.")) /\
  (isValid (isDirectDownloadUrl (downloadUrl r) (type r)) = true ->
   block URL_pathname format r <> EmptyString).
Proof.
  split; [|split].
  - split.
    + intros Hb. destruct (hasUrl r) eqn:Hu.
      * now destruct (block_with_url URL_pathname format r Hu).
      * unfold hasUrl in Hu. now destruct (downloadUrl r).
    + intros Hu. apply block_without_url. unfold hasUrl. now rewrite Hu.
  - intros ->. reflexivity.
  - intros Hv. apply block_with_url. apply valid_has_url.
    unfold invalid. now rewrite Hv.
Qed.

Lemma skipped_resources_are_refused_witness :
  block noURL bash noLink = EmptyString /\
  isDirectDownloadUrl (downloadUrl noLink) (type noLink)
  = mkVerdict false (Some "URL is empty or too short.").
Proof.
  destruct (skipped_resources_are_refused noURL bash noLink) as [[_ Hb] [Hv _]].
  split; [apply Hb; reflexivity | apply Hv; reflexivity].
Defined.

End ScriptAndValidation.
